(** * landmarkerio.cache: the incremental asset cache

    A shallow embedding of [landmarkerio/cache.py] and the properties of
    its asset mapper, cache diff, caching pipelines and batch driver.

    Python values are modelled as follows:
    - [str] as [string], paths included;
    - the [dict] built by [build_asset_mapping] as [gmap string string],
      a [set] of ids as [gset string];
    - exceptions as values of [exn], a raising computation returns
      [Raised e];
    - the cache directory and [stdout] as an explicit [world] threaded
      through a state-and-exception monad [M];
    - Python [float] as IEEE 754 binary64, with the operations of
      [SpecFloat]. *)

From Stdlib Require Import ZArith String Ascii Lia.
From Stdlib Require Import Floats.SpecFloat.
From stdpp Require Import gmap strings list fin_maps pretty.

Local Open Scope string_scope.
Local Open Scope list_scope.

(** ** Exceptions *)

Inductive exn :=
  | RuntimeError (msg : string)
  | ValueError (msg : string)
  | ZeroDivisionError (msg : string)
  | OverflowError (msg : string)
  | KeyError (key : string)
  | OSError (path : string)
  | IOError (path : string)
  (* raised by a collaborator (menpo, PIL), opaque to this module *)
  | ExternalError (what : string).

Inductive outcome (A : Type) :=
  | Returned (a : A)
  | Raised (e : exn).
Arguments Returned {A} a.
Arguments Raised {A} e.

(** ** Paths *)

Module Path.

(** [str.rfind(c)]: the index of the last occurrence. *)
Fixpoint rfind (c : ascii) (s : string) : option nat :=
  match s with
  | EmptyString => None
  | String a s' =>
      match rfind c s' with
      | Some i => Some (S i)
      | None => if Ascii.eqb a c then Some 0%nat else None
      end
  end.

(** [s.split(c)] *)
Fixpoint split (c : ascii) (s : string) : list string :=
  match s with
  | EmptyString => [EmptyString]
  | String a s' =>
      if Ascii.eqb a c then EmptyString :: split c s'
      else match split c s' with
           | [] => [String a EmptyString]
           | p :: ps => String a p :: ps
           end
  end.

(** The components pathlib keeps of a POSIX path: empty components and
    ["."] are dropped. *)
Definition parts (fp : string) : list string :=
  filter (λ x, x ≠ "" ∧ x ≠ ".") (split "/"%char fp).

(** [PurePath.name]: the final component, [""] when there is none. *)
Definition name (fp : string) : string := List.last (parts fp) "".

(** [PurePath.stem]: the final component without its suffix; a leading
    or a trailing dot does not start a suffix. *)
Definition stem (fp : string) : string :=
  let name := name fp in
  match rfind "."%char name with
  | Some i =>
      if (0 <? i)%nat && (i <? String.length name - 1)%nat
      then substring 0 i name
      else name
  | None => name
  end.

(** [os.path.join(a, b)] *)
Definition join (a b : string) : string :=
  match b with
  | String "/"%char _ => b
  | _ =>
      match a with
      | EmptyString => b
      | _ =>
          match rfind "/"%char a with
          | Some i =>
              if (i =? String.length a - 1)%nat then a +:+ b
              else a +:+ "/" +:+ b
          | None => a +:+ "/" +:+ b
          end
      end
  end.

End Path.

(** ** Asset mapper *)

Definition asset_id_for_path (fp : string) : string := Path.stem fp.

(** ["asset_id {} is not unique - links to {} and {}".format(...)] *)
Definition not_unique_msg (asset_id first second : string) : string :=
  "asset_id " +:+ asset_id +:+ " is not unique - links to " +:+ first
    +:+ " and " +:+ second.

(** The loop of [build_asset_mapping], with the dictionary built so far. *)
Fixpoint build_asset_mapping_from (asset_mapping : gmap string string)
    (asset_paths_iter : list string) : outcome (gmap string string) :=
  match asset_paths_iter with
  | [] => Returned asset_mapping
  | path :: rest =>
      let asset_id := asset_id_for_path path in
      match asset_mapping !! asset_id with
      | Some first => Raised (RuntimeError (not_unique_msg asset_id first path))
      | None => build_asset_mapping_from (<[asset_id := path]> asset_mapping) rest
      end
  end.

Definition build_asset_mapping (asset_paths_iter : list string)
    : outcome (gmap string string) :=
  build_asset_mapping_from ∅ asset_paths_iter.

(** ** Python floats

    [float] is IEEE 754 binary64: 53 bits of precision, exponents below
    1024, every operation rounded to nearest, ties to even. *)

Module PyFloat.

Definition prec : Z := 53.
Definition emax : Z := 1024.

(** [float(n)] for an [int]: correctly rounded, [OverflowError] when the
    integer is too large. *)
Definition of_int (n : Z) : outcome spec_float :=
  match binary_normalize prec emax n 0 false with
  | S754_infinity _ | S754_nan =>
      Raised (OverflowError "int too large to convert to float")
  | f => Returned f
  end.

(** The literal [1.] *)
Definition one : spec_float := SFone prec emax.

Definition mul (x y : spec_float) : spec_float := SFmul prec emax x y.

(** [x / y] *)
Definition truediv (x y : spec_float) : outcome spec_float :=
  match y with
  | S754_zero _ => Raised (ZeroDivisionError "float division by zero")
  | _ => Returned (SFdiv prec emax x y)
  end.

(** [int(x)]: truncation toward zero. *)
Definition to_int (x : spec_float) : outcome Z :=
  match x with
  | S754_nan => Raised (ValueError "cannot convert float NaN to integer")
  | S754_infinity _ =>
      Raised (OverflowError "cannot convert float infinity to integer")
  | S754_zero _ => Returned 0%Z
  | S754_finite s m e =>
      Returned (cond_Zopp s
        (match e with
         | Zneg p => Z.pos m / 2 ^ Z.pos p
         | _ => Z.pos m * 2 ^ e
         end)%Z)
  end.

End PyFloat.

Global Instance outcome_ret : MRet outcome := λ A a, Returned a.
Global Instance outcome_bind : MBind outcome := λ A B f m,
  match m with
  | Returned a => f a
  | Raised e => Raised e
  end.

(** The size [(width, int(h2w * width))] that [save_jpg_thumbnail_file]
    passes to [resize], for a PIL image of size [(w, h)]:
    [h2w = h * 1. / w]. *)
Definition thumbnail_size (w h width : Z) : outcome (Z * Z) :=
  fh ← PyFloat.of_int h;
  fw ← PyFloat.of_int w;
  h2w ← PyFloat.truediv (PyFloat.mul fh PyFloat.one) fw;
  fwidth ← PyFloat.of_int width;
  h' ← PyFloat.to_int (PyFloat.mul h2w fwidth);
  mret (width, h').

(** ** Decoded assets *)

(** A menpo image: [width], [height], the [ioinfo] of the file it came
    from, and its pixels, which this module never inspects. *)
Record Image := {
  width : Z;
  height : Z;
  ioinfo_extension : string;
  ioinfo_filepath : string;
  pixels : N
}.

(** [img.as_PILImage().size] *)
Definition pil_size (img : Image) : Z * Z := (width img, height img).

(** A menpo mesh; [isinstance(mesh, TexturedTriMesh)] is the constructor
    test.  [geometry] stands for [json.dumps(mesh.tojson())]. *)
Inductive Mesh :=
  | TriMesh (geometry : string)
  | TexturedTriMesh (geometry : string) (texture : Image).

Definition tojson_str (mesh : Mesh) : string :=
  match mesh with
  | TriMesh g => g
  | TexturedTriMesh g _ => g
  end.

(** ** The file system and standard output *)

(** What a file holds. *)
Inductive content :=
  (* [json.dump({'width': w, 'height': h}, f)] *)
  | JsonImageInfo (w h : Z)
  (* [shutil.copyfile(src, dst)] *)
  | CopyOf (src : string)
  (* [pil.save(path, format='jpeg')], with the [quality] when given *)
  | Jpeg (pixels : N) (size : Z * Z) (quality : option Z)
  (* [gzip.open(path, 'wb', compresslevel).write(data)] *)
  | Gzip (compresslevel : Z) (data : string)
  (* anything else found on disk *)
  | Bytes (data : string).

(** An entry of the cache directory: a regular file, or a subdirectory
    with its files. *)
Inductive node :=
  | File (c : content)
  | Dir (files : gmap string content).

(** [dirs] maps the path of a directory to its entries; a path that is
    not a key is not a directory.  [stdout] holds the printed lines.

    The model keeps what the module looks at: whether a path is a
    directory, the names in a directory, and the files of each of its
    subdirectories.  The operating system can make a call fail for other
    reasons (a missing parent, a regular file where a directory is
    created, permissions, a full disk); these failures, like those of the
    decoders, are exceptions the module does not handle, and only the
    decoders' are modelled, through the [environment]. *)
Record world := World {
  dirs : gmap string (gmap string node);
  stdout : list string
}.

Definition M (A : Type) : Type := world → outcome A * world.

Global Instance M_ret : MRet M := λ A a w, (Returned a, w).
Global Instance M_bind : MBind M := λ A B f m w,
  match m w with
  | (Returned a, w') => f a w'
  | (Raised e, w') => (Raised e, w')
  end.

Definition raise {A} (e : exn) : M A := λ w, (Raised e, w).

Definition lift {A} (o : outcome A) : M A := λ w, (o, w).

Definition print (line : string) : M unit := λ w,
  (Returned (), World (dirs w) (stdout w ++ [line])).

(** [os.path.isdir(d)] *)
Definition isdir (d : string) : M bool := λ w,
  (Returned (bool_decide (is_Some (dirs w !! d))), w).

(** [os.mkdir(d)] *)
Definition mkdir (d : string) : M unit := λ w,
  match dirs w !! d with
  | Some _ => (Raised (OSError d), w)
  | None => (Returned (), World (<[d := ∅]> (dirs w)) (stdout w))
  end.

(** [os.listdir(d)] *)
Definition listdir (d : string) : M (list string) := λ w,
  match dirs w !! d with
  | Some entries => (Returned (elements (dom entries)), w)
  | None => (Raised (OSError d), w)
  end.

(** The path [p.join(cache_dir, asset_id)] is the entry [asset_id] of the
    directory [cache_dir]: an asset id is the stem of a file the
    enumerator found, hence a file name (not empty, no separator, neither
    ["."] nor [".."]). *)

(** [p.isdir(p.join(cache_dir, asset_id))] *)
Definition isdir_entry (cache_dir asset_id : string) : M bool := λ w,
  (Returned
     match dirs w !! cache_dir with
     | Some entries =>
         match entries !! asset_id with
         | Some (Dir _) => true
         | _ => false
         end
     | None => false
     end, w).

(** [os.mkdir(p.join(cache_dir, asset_id))] *)
Definition mkdir_entry (cache_dir asset_id : string) : M unit := λ w,
  match dirs w !! cache_dir with
  | Some entries =>
      match entries !! asset_id with
      | Some _ => (Raised (OSError (Path.join cache_dir asset_id)), w)
      | None =>
          (Returned (),
           World (<[cache_dir := <[asset_id := Dir ∅]> entries]> (dirs w))
                 (stdout w))
      end
  | None => (Raised (OSError (Path.join cache_dir asset_id)), w)
  end.

(** Opening [p.join(p.join(cache_dir, asset_id), filename)] for writing
    and writing [c]: the file is created or replaced. *)
Definition write_file (cache_dir asset_id filename : string) (c : content)
    : M unit := λ w,
  match dirs w !! cache_dir with
  | Some entries =>
      match entries !! asset_id with
      | Some (Dir files) =>
          (Returned (),
           World (<[cache_dir :=
                     <[asset_id := Dir (<[filename := c]> files)]> entries]>
                    (dirs w))
                 (stdout w))
      | _ =>
          (Raised (IOError
             (Path.join (Path.join cache_dir asset_id) filename)), w)
      end
  | None =>
      (Raised (IOError
         (Path.join (Path.join cache_dir asset_id) filename)), w)
  end.

(** ** Constants of the package *)

(** Modelled from the spec: [IMAGE_INFO_FILENAME], defined in the package's
    [__init__], is the name the cache layout gives the metadata record. *)
Definition IMAGE_INFO_FILENAME : string := "image-info".

(** Modelled from the spec: [TEXTURE_FILENAME], the name the cache layout
    gives the texture. *)
Definition TEXTURE_FILENAME : string := "texture".

(** Modelled from the spec: [THUMBNAIL_FILENAME], the name the cache layout
    gives the thumbnail. *)
Definition THUMBNAIL_FILENAME : string := "thumbnail".

(** Modelled from the spec: [MESH_FILENAME], the name the cache layout gives
    the compressed geometry. *)
Definition MESH_FILENAME : string := "mesh".

(** ** The collaborators

    What the module takes from the interpreter, the operating system and
    menpo.  The iteration order of a [set] is left open by the language
    and, for strings, varies with the hash seed of the process: [set_iter]
    is one order, any enumeration of the elements. *)
Record environment := {
  abspath : string → string;
  expanduser : string → string;
  getcwd : string;
  CACHE_DIRNAME : string;
  mio_image_paths : string → list string;
  mio_mesh_paths : string → list string;
  mio_import_image : string → outcome Image;
  mio_import_mesh : string → outcome Mesh;
  set_iter : gset string → list string;
  set_iter_perm : ∀ s, set_iter s ≡ₚ elements s
}.

Section Cache.

Context (env : environment).

(** ** Asset path resolution *)

Definition asset_paths (path_f : string → list string)
    (asset_dir glob_pattern : string) : list string :=
  path_f (Path.join asset_dir glob_pattern).

Definition mesh_paths := asset_paths (mio_mesh_paths env).
Definition image_paths := asset_paths (mio_image_paths env).

Definition glob_pattern (ext_str : string) (recursive : bool) : string :=
  let file_glob := "*" +:+ ext_str in
  if recursive then Path.join "**" file_glob else file_glob.

Definition ensure_asset_dir (asset_dir : string) : M string :=
  let asset_dir := abspath env (expanduser env asset_dir) in
  d ← isdir asset_dir;
  if negb d then raise (ValueError (asset_dir +:+ " is not a directory."))
  else
    print ("assets:    " +:+ asset_dir);;
    mret asset_dir.

(** ** Caching *)

Definition cache_asset (cache_dir : string)
    (cache_f : string → string → string → M unit)
    (path asset_id : string) : M unit :=
  print ("Caching asset " +:+ asset_id +:+ " from " +:+ path);;
  d ← isdir_entry cache_dir asset_id;
  (if negb d then
     print ("Cache for " +:+ asset_id +:+ " does not exist - creating...");;
     mkdir_entry cache_dir asset_id
   else mret ());;
  cache_f cache_dir path asset_id.

(** *** Image caching *)

(** The path argument is [p.join(p.join(cache_dir, asset_id), filename)]. *)
Definition save_jpg_thumbnail_file (img : Image)
    (cache_dir asset_id filename : string) (width : Z) : M unit :=
  let '(w, h) := pil_size img in
  size ← lift (thumbnail_size w h width);
  write_file cache_dir asset_id filename (Jpeg (pixels img) size (Some 20%Z)).

Definition _cache_image_for_id (cache_dir asset_id : string) (img : Image)
    : M unit :=
  (* 1. Save out the image metadata json *)
  write_file cache_dir asset_id IMAGE_INFO_FILENAME
    (JsonImageInfo (width img) (height img));;
  (* 2. Save out the image *)
  (if String.eqb (ioinfo_extension img) ".jpg" then
     write_file cache_dir asset_id TEXTURE_FILENAME
       (CopyOf (ioinfo_filepath img))
   else
     write_file cache_dir asset_id TEXTURE_FILENAME
       (Jpeg (pixels img) (pil_size img) None));;
  (* 3. Save out the thumbnail *)
  save_jpg_thumbnail_file img cache_dir asset_id THUMBNAIL_FILENAME 640.

Definition cache_image (cache_dir path asset_id : string) : M unit :=
  img ← lift (mio_import_image env path);
  _cache_image_for_id cache_dir asset_id img.

(** *** Mesh caching *)

Definition _cache_mesh_for_id (cache_dir asset_id : string) (mesh : Mesh)
    : M unit :=
  write_file cache_dir asset_id MESH_FILENAME (Gzip 1 (tojson_str mesh)).

Definition cache_mesh (cache_dir path asset_id : string) : M unit :=
  mesh ← lift (mio_import_mesh env path);
  match mesh with
  | TexturedTriMesh _ texture => _cache_image_for_id cache_dir asset_id texture
  | TriMesh _ => mret ()
  end;;
  _cache_mesh_for_id cache_dir asset_id mesh.

Definition ensure_cache_dir (cache_dir : option string) : M string :=
  let cache_dir :=
    match cache_dir with
    | None => Path.join (getcwd env) (CACHE_DIRNAME env)
    | Some cache_dir => cache_dir
    end in
  let cache_dir := abspath env (expanduser env cache_dir) in
  d ← isdir cache_dir;
  (if negb d then
     print "Warning the cache dir does not exist - creating...";;
     mkdir cache_dir
   else mret ());;
  print ("cache:     " +:+ cache_dir);;
  mret cache_dir.

(** ** The batch driver *)

(** The progress line ['Caching {}/{} - {}'.format(i + 1, total, asset_id)] *)
Definition progress_msg (i total : nat) (asset_id : string) : string :=
  "Caching " +:+ pretty (i + 1)%nat +:+ "/" +:+ pretty total +:+ " - "
    +:+ asset_id.

(** The loop of [serial_cacher] from position [i] on. *)
Fixpoint serial_cacher_from (cache : string → string → M unit)
    (total i : nat) (path_asset_id : list (string * string)) : M unit :=
  match path_asset_id with
  | [] => mret ()
  | (path, asset_id) :: rest =>
      print (progress_msg i total asset_id);;
      cache path asset_id;;
      serial_cacher_from cache total (S i) rest
  end.

Definition serial_cacher (cache : string → string → M unit)
    (path_asset_id : list (string * string)) : M unit :=
  serial_cacher_from cache (length path_asset_id) 0 path_asset_id.

(** [asset_id_to_paths[a_id]] *)
Definition getitem (d : gmap string string) (key : string) : outcome string :=
  match d !! key with
  | Some v => Returned v
  | None => Raised (KeyError key)
  end.

(** [[(asset_id_to_paths[a_id], a_id) for a_id in ids]] *)
Fixpoint path_asset_id_of (asset_id_to_paths : gmap string string)
    (ids : list string) : outcome (list (string * string)) :=
  match ids with
  | [] => Returned []
  | a_id :: rest =>
      path ← getitem asset_id_to_paths a_id;
      tl ← path_asset_id_of asset_id_to_paths rest;
      mret ((path, a_id) :: tl)
  end.

(** The set [asset_ids - cached] of [build_cache]. *)
Definition uncached_ids (asset_id_to_paths : gmap string string)
    (listing : list string) : gset string :=
  let asset_ids : gset string := dom asset_id_to_paths in
  let cached : gset string := list_to_set listing in
  asset_ids ∖ cached.

Definition build_cache
    (cacher_f : (string → string → M unit) → list (string * string) → M unit)
    (asset_path_f : string → string → list string)
    (cache_f : string → string → string → M unit)
    (asset_dir : string) (recursive : bool) (ext : option string)
    (cache_dir : option string) : M string :=
  (* 1. Ensure the asset_dir and cache_dir are present. *)
  asset_dir ← ensure_asset_dir asset_dir;
  cache_dir ← ensure_cache_dir cache_dir;
  (if recursive then print "assets dir will be searched recursively."
   else mret ());;
  ext_str ←
    match ext with
    | Some ext =>
        let ext_str := "." +:+ ext in
        print ("only assets of type " +:+ ext_str +:+ " will be loaded.");;
        mret ext_str
    | None => mret ""
    end;
  (* Figure out the glob pattern *)
  let glob_ptn := glob_pattern ext_str recursive in
  (* Construct a mapping from id's to file paths *)
  asset_id_to_paths ← lift (build_asset_mapping (asset_path_f asset_dir glob_ptn));
  (* Check cache for what needs to be updated *)
  listing ← listdir cache_dir;
  let uncached := uncached_ids asset_id_to_paths listing in
  print (pretty (size uncached) +:+ " assets need to be added to the cache");;
  let cache := cache_asset cache_dir cache_f in
  path_asset_id ← lift (path_asset_id_of asset_id_to_paths (set_iter env uncached));
  cacher_f cache path_asset_id;;
  (if (0 <? size uncached)%nat then
     print (pretty (size uncached) +:+ " assets cached.")
   else mret ());;
  mret cache_dir.

Definition build_mesh_serial_cache :=
  build_cache serial_cacher mesh_paths cache_mesh.
Definition build_image_serial_cache :=
  build_cache serial_cacher image_paths cache_image.

End Cache.

(** ** Auxiliary definitions for the statements *)

(** The entry [name] of directory [d], when both exist. *)
Definition entry (w : world) (d name : string) : option node :=
  dirs w !! d ≫= λ entries : gmap string node, entries !! name.

(** [m] is the dictionary [build_asset_mapping] has built after the paths
    [seen]: one key per path, the stem of that path. *)
Definition maps_paths (m : gmap string string) (seen : list string) : Prop :=
  NoDup (asset_id_for_path <$> seen) ∧
  size m = length seen ∧
  ∀ asset_id path,
    m !! asset_id = Some path ↔ path ∈ seen ∧ asset_id = asset_id_for_path path.

Definition is_dir (o : option node) : Prop := ∃ files, o = Some (Dir files).

(** What a run may change between two worlds: no directory of [dirs]
    appears or disappears, entries other than those named [ids] in the
    directory [cd] are what they were, and a subdirectory of [cd] stays
    a subdirectory. *)
Definition touches (cd : string) (ids : list string) (w w' : world) : Prop :=
  (∀ d, is_Some (dirs w' !! d) ↔ is_Some (dirs w !! d)) ∧
  (∀ d j, (d = cd → j ∉ ids) → entry w' d j = entry w d j) ∧
  (∀ j, is_dir (entry w cd j) → is_dir (entry w' cd j)).

(** Every run of [m] relates the world before and the world after by [R],
    whether it returns or raises. *)
Definition steps (R : world → world → Prop) {A} (m : M A) : Prop :=
  ∀ w r w', m w = (r, w') → R w w'.

(** The cache directory [build_cache] works on: [ensure_cache_dir]'s
    result. *)
Definition resolve_cache_dir (env : environment) (cache_dir : option string)
    : string :=
  abspath env (expanduser env
    match cache_dir with
    | None => Path.join (getcwd env) (CACHE_DIRNAME env)
    | Some cache_dir => cache_dir
    end).

(** The steps of [build_cache] before it calls [cacher_f]: the cache
    directory, the set [uncached] and the list [path_asset_id]. *)
Definition build_cache_plan (env : environment)
    (asset_path_f : string → string → list string)
    (asset_dir : string) (recursive : bool) (ext : option string)
    (cache_dir : option string)
    : M (string * gset string * list (string * string)) :=
  asset_dir ← ensure_asset_dir env asset_dir;
  cache_dir ← ensure_cache_dir env cache_dir;
  (if recursive then print "assets dir will be searched recursively."
   else mret ());;
  ext_str ←
    match ext with
    | Some ext =>
        let ext_str := "." +:+ ext in
        print ("only assets of type " +:+ ext_str +:+ " will be loaded.");;
        mret ext_str
    | None => mret ""
    end;
  let glob_ptn := glob_pattern ext_str recursive in
  asset_id_to_paths ← lift (build_asset_mapping (asset_path_f asset_dir glob_ptn));
  listing ← listdir cache_dir;
  let uncached := uncached_ids asset_id_to_paths listing in
  print (pretty (size uncached) +:+ " assets need to be added to the cache");;
  path_asset_id ← lift (path_asset_id_of asset_id_to_paths (set_iter env uncached));
  mret (cache_dir, uncached, path_asset_id).

(** The two kinds of asset and their pipelines. *)
Inductive kind := image | mesh.

Definition paths_of (env : environment) (k : kind) :=
  match k with
  | image => image_paths env
  | mesh => mesh_paths env
  end.

Definition cache_f_of (env : environment) (k : kind) :=
  match k with
  | image => cache_image env
  | mesh => cache_mesh env
  end.

Definition build_serial_cache (env : environment) (k : kind) :=
  build_cache env serial_cacher (paths_of env k) (cache_f_of env k).

(** The progress message as the specification words it,
    ["{i}/{total} – {id}"] with [i] counted from 1. *)
Definition claimed_progress_msg (i total : nat) (asset_id : string) : string :=
  pretty i +:+ "/" +:+ pretty total +:+ " – " +:+ asset_id.

(** The paths [build_cache] hands to [build_asset_mapping]. *)
Definition scanned_paths (env : environment)
    (asset_path_f : string → string → list string)
    (asset_dir : string) (recursive : bool) (ext : option string)
    : list string :=
  asset_path_f (abspath env (expanduser env asset_dir))
    (glob_pattern
       match ext with
       | Some ext => "." +:+ ext
       | None => ""
       end recursive).

(** No entry changes and no directory disappears. *)
Definition extends (w w' : world) : Prop :=
  (∀ d, is_Some (dirs w !! d) → is_Some (dirs w' !! d)) ∧
  (∀ d j, entry w' d j = entry w d j).



(** ** A sample installation

    Four images and two meshes under [/assets]; [photo1.png] does not
    decode.  The cache directory [/cache] holds a regular file named
    [photo2]. *)

Definition photo2 : Image :=
  {| width := 3; height := 2; ioinfo_extension := ".png";
     ioinfo_filepath := "/assets/photo2.png"; pixels := 2 |}.

Definition photo3 : Image :=
  {| width := 800; height := 600; ioinfo_extension := ".jpg";
     ioinfo_filepath := "/assets/photo3.jpg"; pixels := 3 |}.

Definition photo4 : Image :=
  {| width := 320; height := 200; ioinfo_extension := ".png";
     ioinfo_filepath := "/assets/sub/photo4.png"; pixels := 4 |}.

Definition skin : Image :=
  {| width := 1024; height := 512; ioinfo_extension := ".jpg";
     ioinfo_filepath := "/assets/mesh2.jpg"; pixels := 5 |}.

Definition sample_env (iter : gset string → list string)
    (iter_perm : ∀ s, iter s ≡ₚ elements s) : environment :=
  {| abspath := λ path, path;
     expanduser := λ path, path;
     getcwd := "/";
     CACHE_DIRNAME := "cache";
     mio_image_paths := λ pattern,
       if String.eqb pattern "/assets/*" then
         ["/assets/photo1.png"; "/assets/photo2.png"; "/assets/photo3.jpg";
          "/assets/sub/photo4.png"]
       else [];
     mio_mesh_paths := λ pattern,
       if String.eqb pattern "/assets/*" then
         ["/assets/mesh1.obj"; "/assets/mesh2.obj"]
       else [];
     mio_import_image := λ path,
       if String.eqb path "/assets/photo3.jpg" then Returned photo3
       else if String.eqb path "/assets/photo2.png" then Returned photo2
       else if String.eqb path "/assets/sub/photo4.png" then Returned photo4
       else Raised (ExternalError "cannot decode");
     mio_import_mesh := λ path,
       if String.eqb path "/assets/mesh1.obj" then Returned (TriMesh "{}")
       else if String.eqb path "/assets/mesh2.obj" then
         Returned (TexturedTriMesh "{}" skin)
       else Raised (ExternalError "cannot decode");
     set_iter := iter;
     set_iter_perm := iter_perm |}.

(** One process iterates a set in the order of [elements], another in
    the reverse order. *)
Definition env_fwd : environment :=
  sample_env elements (λ s, reflexivity (elements s)).


Definition sample_world : world :=
  World {[ "/assets" := ∅;
           "/cache" := {[ "photo2" := File (Bytes "stale") ]} ]} [].


(** ** Rounding, for the statements about floats *)

(** The integer nearest to [N / D], the even one on a tie: rounding to
    nearest, ties to even, of binary64. *)
Definition rne (N D : Z) : Z :=
  let q := (N / D)%Z in
  match (2 * (N mod D) ?= D)%Z with
  | Lt => q
  | Gt => (q + 1)%Z
  | Eq => if Z.even q then q else (q + 1)%Z
  end.

(** The record [mrs] of [SpecFloat] locates the rational [N / D]: its
    mantissa is the integer part, its round and sticky bits tell where the
    fractional part lies with respect to one half. *)
Definition located (mrs : shr_record) (N D : Z) : Prop :=
  shr_m mrs = (N / D)%Z ∧
  shr_r mrs = (D <=? 2 * (N mod D))%Z ∧
  shr_s mrs = negb (N mod D =? 0)%Z && negb (2 * (N mod D) =? D)%Z.


(** The sample installation with two files of one stem in different
    directories. *)
Definition env_dup : environment :=
  {| abspath := abspath env_fwd;
     expanduser := expanduser env_fwd;
     getcwd := getcwd env_fwd;
     CACHE_DIRNAME := CACHE_DIRNAME env_fwd;
     mio_image_paths := λ _, ["/assets/a/x.jpg"; "/assets/b/x.png"];
     mio_mesh_paths := mio_mesh_paths env_fwd;
     mio_import_image := mio_import_image env_fwd;
     mio_import_mesh := mio_import_mesh env_fwd;
     set_iter := set_iter env_fwd;
     set_iter_perm := set_iter_perm env_fwd |}.

(** A world with the asset directory only. *)
Definition bare_world : world := World {[ "/assets" := ∅ ]} [].


(** * Properties *)

(** ** Asset mapper *)

Example stem_jpg : asset_id_for_path "/data/faces/photo1.jpg" = "photo1".
Proof. reflexivity. Qed.
Example stem_two_suffixes : asset_id_for_path "a/b/mesh.tar.gz" = "mesh.tar".
Proof. reflexivity. Qed.
Example stem_hidden : asset_id_for_path "a/.profile" = ".profile".
Proof. reflexivity. Qed.
Example stem_trailing_slash : asset_id_for_path "a/b.obj/" = "b".
Proof. reflexivity. Qed.
Example join_plain : Path.join "/cache" "photo1" = "/cache/photo1".
Proof. reflexivity. Qed.
Example join_slash : Path.join "/cache/" "photo1" = "/cache/photo1".
Proof. reflexivity. Qed.
Example join_absolute : Path.join "/cache" "/photo1" = "/photo1".
Proof. reflexivity. Qed.

Lemma maps_paths_empty : maps_paths ∅ [].
Proof.
  split; [constructor | split; [done |]].
  intros asset_id path. rewrite lookup_empty. split; [done |].
  intros [Hin _]. by apply elem_of_nil in Hin.
Qed.

Lemma maps_paths_lookup_None m seen path :
  maps_paths m seen →
  m !! asset_id_for_path path = None →
  asset_id_for_path path ∉ asset_id_for_path <$> seen.
Proof.
  intros (_ & _ & Hm) Hnone Hin.
  apply list_elem_of_fmap in Hin as (first & Heq & Hfirst).
  assert (m !! asset_id_for_path path = Some first) as Hsome
    by (apply Hm; done).
  congruence.
Qed.

Lemma maps_paths_snoc m seen path :
  maps_paths m seen →
  m !! asset_id_for_path path = None →
  maps_paths (<[asset_id_for_path path := path]> m) (seen ++ [path]).
Proof.
  intros Hinv Hnone.
  pose proof (maps_paths_lookup_None _ _ _ Hinv Hnone) as Hfresh.
  destruct Hinv as (Hnd & Hsize & Hm).
  split; [| split].
  - rewrite fmap_app. apply NoDup_app. split; [done |]. split.
    + intros x Hx Hx'. apply list_elem_of_singleton in Hx'. by subst.
    + apply NoDup_singleton.
  - rewrite map_size_insert_None by done. rewrite length_app. simpl. lia.
  - intros asset_id p. rewrite elem_of_app, list_elem_of_singleton.
    destruct (decide (asset_id = asset_id_for_path path)) as [-> | Hne].
    + rewrite lookup_insert_eq. split.
      * intros [= <-]. auto.
      * intros [[Hin | ->] Heq]; [| done].
        exfalso. apply Hfresh. rewrite Heq. by apply list_elem_of_fmap_2.
    + rewrite lookup_insert_ne by done. rewrite Hm. split.
      * intros [? ?]. auto.
      * intros [[? | ->] ?]; [done | congruence].
Qed.

(** The loop either completes with the dictionary of all the paths, when
    their stems are distinct, or stops at the first path whose stem was
    seen before. *)
Lemma build_asset_mapping_from_spec rest : ∀ m seen,
  maps_paths m seen →
  (∃ m', build_asset_mapping_from m rest = Returned m' ∧
         maps_paths m' (seen ++ rest)) ∨
  (∃ pre first second post,
     seen ++ rest = pre ++ second :: post ∧
     NoDup (asset_id_for_path <$> pre) ∧
     first ∈ pre ∧
     asset_id_for_path first = asset_id_for_path second ∧
     build_asset_mapping_from m rest =
       Raised (RuntimeError
         (not_unique_msg (asset_id_for_path second) first second))).
Proof.
  induction rest as [| path rest IH]; intros m seen Hinv.
  - left. exists m. by rewrite app_nil_r.
  - simpl. destruct (m !! asset_id_for_path path) as [first |] eqn:Hlook.
    + right. exists seen, first, path, rest.
      destruct Hinv as (Hnd & _ & Hm).
      apply Hm in Hlook as [Hin Heq]. done.
    + replace (seen ++ path :: rest) with ((seen ++ [path]) ++ rest)
        by (by rewrite <- app_assoc).
      apply IH. by apply maps_paths_snoc.
Qed.

Lemma NoDup_fmap_prefix_elem (pre post : list string) first second :
  NoDup (asset_id_for_path <$> (pre ++ second :: post)) →
  first ∈ pre →
  asset_id_for_path first ≠ asset_id_for_path second.
Proof.
  rewrite fmap_app, fmap_cons. intros Hnd Hin Heq.
  apply NoDup_app in Hnd as (_ & Hdisj & _).
  apply (Hdisj (asset_id_for_path first)).
  - by apply list_elem_of_fmap_2.
  - rewrite Heq. apply list_elem_of_here.
Qed.

(** C4: paths with pairwise distinct stems are all mapped: the mapper
    returns a dictionary with exactly one entry per path, and a key maps
    to a path exactly when it is the stem of that path. *)
Theorem build_asset_mapping_distinct_stems (paths : list string) :
  NoDup (asset_id_for_path <$> paths) →
  ∃ m, build_asset_mapping paths = Returned m ∧
       size m = length paths ∧
       ∀ asset_id path,
         m !! asset_id = Some path ↔
         path ∈ paths ∧ asset_id = asset_id_for_path path.
Proof.
  intros Hnd.
  destruct (build_asset_mapping_from_spec paths ∅ [] maps_paths_empty)
    as [(m & Hrun & _ & Hsize & Hm) | (pre & first & second & post & Heq & _ & Hin & Hstem & _)].
  - exists m. done.
  - simpl in Heq. rewrite Heq in Hnd.
    by apply NoDup_fmap_prefix_elem with (first := first) in Hnd.
Qed.

Lemma build_asset_mapping_distinct_stems_witness :
  ∃ m, build_asset_mapping ["/a/photo1.jpg"; "/a/sub/photo2.png"] = Returned m ∧
       size m = 2%nat ∧
       ∀ asset_id path,
         m !! asset_id = Some path ↔
         path ∈ ["/a/photo1.jpg"; "/a/sub/photo2.png"] ∧
         asset_id = asset_id_for_path path.
Proof.
  apply (build_asset_mapping_distinct_stems
           ["/a/photo1.jpg"; "/a/sub/photo2.png"]).
  apply (bool_decide_unpack _). vm_compute. exact I.
Defined.

(** C3: when two distinct paths of the sequence share a stem, the mapper
    raises and returns no dictionary.  It stops at [second], the first
    path whose stem an earlier path [first] already has (the stems before
    [second] are distinct), and the message of the error names the stem
    and both paths. *)
Theorem build_asset_mapping_duplicate_stem (paths : list string) (p1 p2 : string) :
  p1 ∈ paths → p2 ∈ paths → p1 ≠ p2 →
  asset_id_for_path p1 = asset_id_for_path p2 →
  ∃ pre first second post,
    paths = pre ++ second :: post ∧
    NoDup (asset_id_for_path <$> pre) ∧
    first ∈ pre ∧
    asset_id_for_path first = asset_id_for_path second ∧
    build_asset_mapping paths =
      Raised (RuntimeError
        ("asset_id " +:+ asset_id_for_path second +:+
         " is not unique - links to " +:+ first +:+ " and " +:+ second)).
Proof.
  intros Hin1 Hin2 Hne Hstem.
  destruct (build_asset_mapping_from_spec paths ∅ [] maps_paths_empty)
    as [(m & _ & _ & _ & Hm) | (pre & first & second & post & Heq & Hnd & Hin & Hst & Hrun)].
  - simpl in Hm.
    assert (m !! asset_id_for_path p1 = Some p1) as H1 by (by apply Hm).
    assert (m !! asset_id_for_path p1 = Some p2) as H2 by (by apply Hm).
    congruence.
  - exists pre, first, second, post. done.
Qed.

Lemma build_asset_mapping_duplicate_stem_witness :
  ∃ pre first second post,
    ["/a/x.jpg"; "/a/y.jpg"; "/b/x.png"; "/b/y.png"] = pre ++ second :: post ∧
    NoDup (asset_id_for_path <$> pre) ∧
    first ∈ pre ∧
    asset_id_for_path first = asset_id_for_path second ∧
    build_asset_mapping ["/a/x.jpg"; "/a/y.jpg"; "/b/x.png"; "/b/y.png"] =
      Raised (RuntimeError
        ("asset_id " +:+ asset_id_for_path second +:+
         " is not unique - links to " +:+ first +:+ " and " +:+ second)).
Proof.
  apply (build_asset_mapping_duplicate_stem
           ["/a/x.jpg"; "/a/y.jpg"; "/b/x.png"; "/b/y.png"]
           "/a/x.jpg" "/b/x.png").
  - apply (bool_decide_unpack _). vm_compute. exact I.
  - apply (bool_decide_unpack _). vm_compute. exact I.
  - apply (bool_decide_unpack _). vm_compute. exact I.
  - reflexivity.
Defined.

Example duplicate_stem_message :
  build_asset_mapping ["/a/x.jpg"; "/a/y.jpg"; "/b/x.png"; "/b/y.png"] =
  Raised (RuntimeError
    "asset_id x is not unique - links to /a/x.jpg and /b/x.png").
Proof. vm_compute. reflexivity. Qed.

(** ** Running computations *)

Lemma bind_run {A B} (m : M A) (f : A → M B) (w : world) :
  (m ≫= f) w =
  match m w with
  | (Returned a, w') => f a w'
  | (Raised e, w') => (Raised e, w')
  end.
Proof. reflexivity. Qed.

Lemma entry_dirs_eq (w w' : world) :
  dirs w' = dirs w → ∀ d j, entry w' d j = entry w d j.
Proof. intros Heq d j. unfold entry. by rewrite Heq. Qed.

Lemma entry_Some w d j n :
  entry w d j = Some n ↔ ∃ entries, dirs w !! d = Some entries ∧ entries !! j = Some n.
Proof.
  unfold entry. destruct (dirs w !! d) as [entries |]; simpl.
  - split; [eauto | by intros (? & [= <-] & ?)].
  - split; [done | by intros (? & ? & ?)].
Qed.

Global Instance touches_preorder cd ids : PreOrder (touches cd ids).
Proof.
  split.
  - intros w. split; [done | split; auto].
  - intros w1 w2 w3 (Hk1 & He1 & Hd1) (Hk2 & He2 & Hd2). split; [| split].
    + intros d. by rewrite Hk2.
    + intros d j Hj. rewrite He2 by done. by apply He1.
    + auto.
Qed.

Lemma touches_dirs_eq cd ids (w w' : world) :
  dirs w' = dirs w → touches cd ids w w'.
Proof.
  intros Heq. split; [| split].
  - intros d. by rewrite Heq.
  - intros d j _. by apply entry_dirs_eq.
  - intros j. by rewrite (entry_dirs_eq _ _ Heq).
Qed.

Lemma touches_mono cd ids ids' (w w' : world) :
  ids ⊆ ids' → touches cd ids w w' → touches cd ids' w w'.
Proof.
  intros Hsub (Hk & He & Hd). split; [done | split; [| done]].
  intros d j Hj. apply He. intros Hcd Hin. by apply (Hj Hcd), Hsub.
Qed.

(** Putting a subdirectory at [id] in [cd] touches that entry only. *)
Lemma touches_insert_dir cd id entries files (w w' : world) :
  dirs w !! cd = Some entries →
  dirs w' = <[cd := <[id := Dir files]> entries]> (dirs w) →
  touches cd [id] w w'.
Proof.
  intros Hcd Heq. split; [| split].
  - intros d. rewrite Heq. destruct (decide (cd = d)) as [<- | Hne].
    + rewrite lookup_insert_eq, Hcd. split; eauto.
    + by rewrite lookup_insert_ne.
  - intros d j Hj. unfold entry. rewrite Heq.
    destruct (decide (cd = d)) as [<- | Hne].
    + rewrite lookup_insert_eq, Hcd. simpl.
      rewrite lookup_insert_ne; [done |].
      intros ->. apply (Hj eq_refl). apply list_elem_of_here.
    + by rewrite lookup_insert_ne.
  - intros j Hdir. unfold entry in *. rewrite Heq, lookup_insert_eq. simpl.
    rewrite Hcd in Hdir. simpl in Hdir.
    destruct (decide (id = j)) as [<- | Hne].
    + rewrite lookup_insert_eq. by eexists.
    + by rewrite lookup_insert_ne.
Qed.

Section Steps.

Context (R : world → world → Prop) `{!PreOrder R}.

Lemma steps_ret {A} (a : A) : steps R (mret a).
Proof. intros w r w' [= <- <-]. reflexivity. Qed.

Lemma steps_raise {A} (e : exn) : steps R (@raise A e).
Proof. intros w r w' [= <- <-]. reflexivity. Qed.

Lemma steps_lift {A} (o : outcome A) : steps R (lift o).
Proof. intros w r w' [= <- <-]. reflexivity. Qed.

Lemma steps_bind {A B} (m : M A) (f : A → M B) :
  steps R m → (∀ a, steps R (f a)) → steps R (m ≫= f).
Proof.
  intros Hm Hf w r w'' Hrun. rewrite bind_run in Hrun.
  destruct (m w) as [[a | e] w'] eqn:Em.
  - transitivity w'; [by eapply Hm | by eapply Hf].
  - injection Hrun as <- <-. by eapply Hm.
Qed.

End Steps.

Section Touches.

Context (cd : string) (ids : list string).

Lemma steps_print line : steps (touches cd ids) (print line).
Proof. intros w r w' [= <- <-]. by apply touches_dirs_eq. Qed.

Lemma steps_isdir d : steps (touches cd ids) (isdir d).
Proof. intros w r w' [= <- <-]. reflexivity. Qed.

Lemma steps_isdir_entry id : steps (touches cd ids) (isdir_entry cd id).
Proof. intros w r w' [= <- <-]. reflexivity. Qed.

Lemma steps_listdir d : steps (touches cd ids) (listdir d).
Proof.
  intros w r w'. unfold listdir.
  destruct (dirs w !! d); intros [= <- <-]; reflexivity.
Qed.

Lemma steps_mkdir_entry id : id ∈ ids → steps (touches cd ids) (mkdir_entry cd id).
Proof.
  intros Hin w r w'. unfold mkdir_entry.
  destruct (dirs w !! cd) as [entries |] eqn:Hcd; [| intros [= <- <-]; reflexivity].
  destruct (entries !! id); intros [= <- <-]; [reflexivity |].
  eapply touches_mono; [| by eapply touches_insert_dir].
  intros x ->%list_elem_of_singleton. done.
Qed.

Lemma steps_write_file id filename c :
  id ∈ ids → steps (touches cd ids) (write_file cd id filename c).
Proof.
  intros Hin w r w'. unfold write_file.
  destruct (dirs w !! cd) as [entries |] eqn:Hcd; [| intros [= <- <-]; reflexivity].
  destruct (entries !! id) as [[? | files] |]; intros [= <- <-]; try reflexivity.
  eapply touches_mono; [| by eapply touches_insert_dir].
  intros x ->%list_elem_of_singleton. done.
Qed.

End Touches.

Ltac steps_tac :=
  repeat first
    [ apply steps_bind; [typeclasses eauto | | intros ?]
    | apply steps_ret; typeclasses eauto
    | apply steps_raise; typeclasses eauto
    | apply steps_lift; typeclasses eauto
    | apply steps_print
    | apply steps_isdir
    | apply steps_isdir_entry
    | apply steps_listdir
    | apply steps_mkdir_entry; apply list_elem_of_here
    | apply steps_write_file; apply list_elem_of_here
    | match goal with
      | |- steps _ (if ?b then _ else _) => destruct b
      | |- steps _ (match ?x with _ => _ end) => destruct x
      end ].

(** ** The pipelines touch their own cache entry only *)

Lemma steps_cache_image_for_id cd id img :
  steps (touches cd [id]) (_cache_image_for_id cd id img).
Proof.
  unfold _cache_image_for_id, save_jpg_thumbnail_file, pil_size. steps_tac.
Qed.

Lemma steps_cache_f env k cd path id :
  steps (touches cd [id]) (cache_f_of env k cd path id).
Proof.
  destruct k; simpl; unfold cache_image, cache_mesh, _cache_mesh_for_id.
  - apply steps_bind; [typeclasses eauto | steps_tac | intros img].
    apply steps_cache_image_for_id.
  - apply steps_bind; [typeclasses eauto | steps_tac | intros m].
    apply steps_bind; [typeclasses eauto | | intros ?; steps_tac].
    destruct m; [steps_tac | apply steps_cache_image_for_id].
Qed.

Lemma steps_cache_asset env k cd path id :
  steps (touches cd [id]) (cache_asset cd (cache_f_of env k) path id).
Proof.
  unfold cache_asset.
  apply steps_bind; [typeclasses eauto | steps_tac | intros ?].
  apply steps_bind; [typeclasses eauto | steps_tac | intros d].
  apply steps_bind; [typeclasses eauto | steps_tac | intros ?].
  apply steps_cache_f.
Qed.

Lemma bind_returned {A B} (m : M A) (f : A → M B) (w w'' : world) (b : B) :
  (m ≫= f) w = (Returned b, w'') →
  ∃ a w', m w = (Returned a, w') ∧ f a w' = (Returned b, w'').
Proof.
  rewrite bind_run. destruct (m w) as [[a | e] w']; [eauto | done].
Qed.




(** ** The batch driver *)

Lemma serial_cacher_from_app cache total pre : ∀ i post w,
  serial_cacher_from cache total i (pre ++ post) w =
  match serial_cacher_from cache total i pre w with
  | (Returned _, w1) => serial_cacher_from cache total (length pre + i) post w1
  | (Raised e, w1) => (Raised e, w1)
  end.
Proof.
  induction pre as [| [path asset_id] pre IH]; intros i post w; [done |].
  simpl. rewrite !bind_run. simpl. rewrite !bind_run.
  match goal with |- context [cache path asset_id ?w0] =>
    destruct (cache path asset_id w0) as [[[] | e] w1]; [| done] end.
  rewrite IH.
  destruct (serial_cacher_from cache total (S i) pre w1) as [[[] | e] w2];
    [| done].
  by rewrite Nat.add_succ_r.
Qed.

(** C7, as the code has it: the items are taken in order and, once the
    items before position [length pre] are cached, the line
    ["Caching {i}/{total} - {id}"] is printed, with [i] the 1-based
    position and [total] the length of the list, and only then is the
    caching function called on the item. *)
Theorem serial_cacher_progress_before_call
    (cache : string → string → M unit)
    (pre post : list (string * string)) (path asset_id : string)
    (w w1 : world) :
  let path_asset_id := pre ++ (path, asset_id) :: post in
  let total := length path_asset_id in
  serial_cacher_from cache total 0 pre w = (Returned (), w1) →
  serial_cacher cache path_asset_id w =
    (cache path asset_id ≫= λ _,
       serial_cacher_from cache total (S (length pre)) post)
      (World (dirs w1)
         (stdout w1 ++
            ["Caching " +:+ pretty (length pre + 1)%nat +:+ "/" +:+
             pretty total +:+ " - " +:+ asset_id])).
Proof.
  intros path_asset_id total Hpre. unfold serial_cacher.
  fold total. unfold path_asset_id. rewrite serial_cacher_from_app, Hpre.
  simpl. rewrite Nat.add_0_r. reflexivity.
Qed.

Lemma serial_cacher_progress_before_call_witness :
  serial_cacher (λ _ _, mret ())
    [("/a/photo1.jpg", "photo1"); ("/a/photo2.png", "photo2")] (World ∅ []) =
  ((λ _ _, mret ()) "/a/photo2.png" "photo2" ≫= λ _,
     serial_cacher_from (λ _ _, mret ()) 2 2 [])
    (World ∅ ["Caching 1/2 - photo1"; "Caching 2/2 - photo2"]).
Proof.
  apply (serial_cacher_progress_before_call (λ _ _, mret ())
           [("/a/photo1.jpg", "photo1")] [] "/a/photo2.png" "photo2"
           (World ∅ []) (World ∅ ["Caching 1/2 - photo1"])).
  reflexivity.
Defined.

(** C7, as the specification words it, fails: the line printed for the
    only item of a list is ["Caching 1/1 - photo1"], not
    ["1/1 – photo1"]. *)
Lemma serial_cacher_progress_form_counterexample :
  stdout (serial_cacher (λ _ _, mret ()) [("/a/photo1.jpg", "photo1")]
            (World ∅ [])).2 = ["Caching 1/1 - photo1"] ∧
  claimed_progress_msg 1 1 "photo1" ∉
    stdout (serial_cacher (λ _ _, mret ()) [("/a/photo1.jpg", "photo1")]
              (World ∅ [])).2.
Proof.
  split; [reflexivity |].
  apply (bool_decide_unpack _). vm_compute. exact I.
Qed.

(** ** The plan of [build_cache] *)

Lemma build_cache_unfold env cacher_f asset_path_f cache_f asset_dir recursive
    ext cache_dir (w : world) :
  build_cache env cacher_f asset_path_f cache_f asset_dir recursive ext
    cache_dir w =
  (build_cache_plan env asset_path_f asset_dir recursive ext cache_dir ≫=
     λ '(cd, uncached, path_asset_id),
       cacher_f (cache_asset cd cache_f) path_asset_id;;
       (if (0 <? size uncached)%nat then
          print (pretty (size uncached) +:+ " assets cached.")
        else mret ());;
       mret cd) w.
Proof.
  unfold build_cache, build_cache_plan.
  repeat (rewrite !bind_run;
          match goal with
          | |- context [match ?m ?w0 with _ => _ end] =>
              destruct (m w0) as [[? | ?] ?]; try reflexivity
          end).
Qed.

Global Instance extends_preorder : PreOrder extends.
Proof.
  split.
  - intros w. by split.
  - intros w1 w2 w3 [Hk1 He1] [Hk2 He2]. split; [auto |].
    intros d j. by rewrite He2.
Qed.

Lemma extends_dirs_eq (w w' : world) : dirs w' = dirs w → extends w w'.
Proof.
  intros Heq. split; [by rewrite Heq | by apply entry_dirs_eq].
Qed.




Lemma steps_extends_mkdir d : steps extends (mkdir d).
Proof.
  intros w r w'. unfold mkdir.
  destruct (dirs w !! d) eqn:Hd; intros [= <- <-]; [reflexivity |].
  split; simpl.
  - intros d' Hsome. destruct (decide (d = d')) as [<- | Hne].
    + rewrite lookup_insert_eq. eauto.
    + by rewrite lookup_insert_ne.
  - intros d' j. unfold entry. simpl.
    destruct (decide (d = d')) as [<- | Hne].
    + rewrite lookup_insert_eq, Hd. simpl. apply lookup_empty.
    + by rewrite lookup_insert_ne.
Qed.




Lemma path_asset_id_of_total m ids :
  (∀ i, i ∈ ids → is_Some (m !! i)) →
  ∃ l, path_asset_id_of m ids = Returned l.
Proof.
  induction ids as [| a ids IH]; simpl; intros Hall; [by eexists |].
  destruct (Hall a) as [p Hp]; [apply list_elem_of_here |].
  destruct IH as [tl Htl].
  { intros i Hi. apply Hall. by apply list_elem_of_further. }
  unfold getitem. rewrite Hp. simpl. rewrite Htl. simpl. by eexists.
Qed.

Lemma uncached_ids_listing (m : gmap string string) (entries : gmap string node) :
  uncached_ids m (elements (dom entries)) = dom m ∖ dom entries.
Proof. unfold uncached_ids. by rewrite list_to_set_elements_L. Qed.

Lemma set_iter_elem env (s : gset string) i : i ∈ set_iter env s ↔ i ∈ s.
Proof. rewrite (set_iter_perm env s). apply elem_of_elements. Qed.


Lemma set_iter_length env (s : gset string) : length (set_iter env s) = size s.
Proof. by rewrite (set_iter_perm env s). Qed.

Lemma ensure_asset_dir_returned env asset_dir (w w1 : world) a :
  ensure_asset_dir env asset_dir w = (Returned a, w1) →
  a = abspath env (expanduser env asset_dir) ∧
  is_Some (dirs w !! a) ∧ dirs w1 = dirs w.
Proof.
  unfold ensure_asset_dir. intros Hrun.
  apply bind_returned in Hrun as (d & w' & Hd & Hrun).
  injection Hd as <- <-.
  case_bool_decide as Hdir; simpl in Hrun; [| done].
  injection Hrun as <- <-. done.
Qed.

Lemma ensure_cache_dir_returned env cache_dir (w w1 : world) cd :
  ensure_cache_dir env cache_dir w = (Returned cd, w1) →
  cd = resolve_cache_dir env cache_dir ∧
  ((is_Some (dirs w !! cd) ∧ dirs w1 = dirs w) ∨
   (dirs w !! cd = None ∧ dirs w1 = <[cd := ∅]> (dirs w))).
Proof.
  unfold ensure_cache_dir. fold (resolve_cache_dir env cache_dir).
  intros Hrun.
  apply bind_returned in Hrun as (d & w' & Hd & Hrun).
  injection Hd as <- <-.
  case_bool_decide as Hdir; simpl in Hrun.
  - injection Hrun as <- <-. auto.
  - apply bind_returned in Hrun as ([] & w2 & Hmk & Hrun).
    apply bind_returned in Hmk as ([] & w3 & Hpr & Hmk).
    injection Hpr as <-. injection Hrun as <- <-.
    unfold mkdir in Hmk. simpl in *.
    destruct (dirs w !! resolve_cache_dir env cache_dir) eqn:Hcd; [done |].
    injection Hmk as <-. auto.
Qed.

Lemma print_returned line (w w' : world) (r : outcome ()) :
  print line w = (r, w') → dirs w' = dirs w.
Proof. by intros [= <- <-]. Qed.

(** What a plan that returns tells: the directories were accepted, the
    mapper returned [m], and [uncached] is the difference between the
    keys of [m] and the names found in the cache directory. *)
Lemma build_cache_plan_returned env asset_path_f asset_dir recursive ext
    cache_dir (w w0 : world) cd uncached l :
  build_cache_plan env asset_path_f asset_dir recursive ext cache_dir w =
    (Returned (cd, uncached, l), w0) →
  cd = resolve_cache_dir env cache_dir ∧
  is_Some (dirs w !! abspath env (expanduser env asset_dir)) ∧
  ∃ m entries,
    build_asset_mapping
      (scanned_paths env asset_path_f asset_dir recursive ext) = Returned m ∧
    dirs w0 !! cd = Some entries ∧
    uncached = dom m ∖ dom entries ∧
    path_asset_id_of m (set_iter env uncached) = Returned l.
Proof.
  unfold build_cache_plan. intros Hrun.
  apply bind_returned in Hrun as (ad & w1 & Had & Hrun).
  apply ensure_asset_dir_returned in Had as (-> & Had & Hw1).
  apply bind_returned in Hrun as (cd' & w2 & Hcd & Hrun).
  apply ensure_cache_dir_returned in Hcd as [-> Hcd].
  apply bind_returned in Hrun as ([] & w3 & Hrec & Hrun).
  assert (dirs w3 = dirs w2) as Hw3.
  { destruct recursive; [by eapply print_returned | by injection Hrec as <-]. }
  apply bind_returned in Hrun as (ext_str & w4 & Hext & Hrun).
  assert (ext_str = match ext with Some ext => "." +:+ ext | None => "" end
          ∧ dirs w4 = dirs w3) as [-> Hw4].
  { destruct ext; [| by injection Hext as <- <-].
    apply bind_returned in Hext as ([] & w' & Hpr & Hext).
    injection Hext as <- <-. split; [done | by eapply print_returned]. }
  apply bind_returned in Hrun as (m & w5 & Hm & Hrun).
  injection Hm as Hm <-.
  apply bind_returned in Hrun as (listing & w6 & Hls & Hrun).
  unfold listdir in Hls.
  destruct (dirs w4 !! resolve_cache_dir env cache_dir) as [entries |] eqn:Hentries;
    [| done].
  injection Hls as <- <-.
  apply bind_returned in Hrun as ([] & w7 & Hpr & Hrun).
  apply print_returned in Hpr.
  apply bind_returned in Hrun as (l' & w8 & Hl & Hrun).
  injection Hl as Hl <-. injection Hrun as <- <- <- <-.
  split; [done |]. split; [done |].
  exists m, entries. rewrite uncached_ids_listing in *.
  split; [done |]. split; [by rewrite Hpr |]. done.
Qed.

(** ** The batch driver over the pipelines *)

Lemma steps_mono (R R' : world → world → Prop) {A} (m : M A) :
  (∀ w w', R w w' → R' w w') → steps R m → steps R' m.
Proof. intros Hsub Hm w r w' Hrun. by eapply Hsub, Hm. Qed.

Lemma steps_serial_cacher_from env k cd total l : ∀ i,
  steps (touches cd (l.*2))
    (serial_cacher_from (cache_asset cd (cache_f_of env k)) total i l).
Proof.
  induction l as [| [path a] l IH]; intros i; simpl.
  - apply steps_ret. typeclasses eauto.
  - apply steps_bind; [typeclasses eauto | apply steps_print | intros _].
    apply steps_bind; [typeclasses eauto | | intros _].
    + eapply steps_mono; [| apply steps_cache_asset].
      intros w w'. apply touches_mono.
      intros x ->%list_elem_of_singleton. apply list_elem_of_here.
    + eapply steps_mono; [| apply IH].
      intros w w'. apply touches_mono.
      intros x Hx. by apply list_elem_of_further.
Qed.



(** ** What a build changes *)




(** ** The order of processing *)


(** ** Running a build again *)

Lemma ensure_asset_dir_runs env asset_dir (w : world) :
  is_Some (dirs w !! abspath env (expanduser env asset_dir)) →
  ∃ out, ensure_asset_dir env asset_dir w =
         (Returned (abspath env (expanduser env asset_dir)),
          World (dirs w) out).
Proof.
  intros Hdir. unfold ensure_asset_dir. rewrite bind_run. simpl.
  rewrite bool_decide_eq_true_2 by done. simpl. by eexists.
Qed.

Lemma ensure_cache_dir_runs env cache_dir (w : world) :
  is_Some (dirs w !! resolve_cache_dir env cache_dir) →
  ∃ out, ensure_cache_dir env cache_dir w =
         (Returned (resolve_cache_dir env cache_dir), World (dirs w) out).
Proof.
  intros Hdir. unfold ensure_cache_dir.
  fold (resolve_cache_dir env cache_dir). rewrite bind_run. simpl.
  rewrite bool_decide_eq_true_2 by done. simpl. by eexists.
Qed.



(** ** The cache entry of one asset *)






(** ** The sample installation *)










(** ** Thumbnail geometry

    The operations of [SpecFloat] round a located value with
    [binary_round_aux]; the lemmas below say what it returns for the
    values [save_jpg_thumbnail_file] computes. *)

Section ThumbnailGeometry.

Local Open Scope Z_scope.

Lemma digits2_pos_bounds p :
  2 ^ (Z.pos (digits2_pos p) - 1) <= Z.pos p < 2 ^ Z.pos (digits2_pos p).
Proof.
  induction p as [p IH | p IH |]; simpl digits2_pos.
  - rewrite Pos2Z.inj_succ.
    replace (Z.succ (Z.pos (digits2_pos p)) - 1) with (Z.succ (Z.pos (digits2_pos p) - 1)) by lia.
    rewrite !Z.pow_succ_r by lia. lia.
  - rewrite Pos2Z.inj_succ.
    replace (Z.succ (Z.pos (digits2_pos p)) - 1) with (Z.succ (Z.pos (digits2_pos p) - 1)) by lia.
    rewrite !Z.pow_succ_r by lia. lia.
  - simpl. lia.
Qed.

Lemma Zdigits2_unique x n :
  0 < n -> 2 ^ (n - 1) <= x < 2 ^ n -> Zdigits2 x = n.
Proof.
  intros Hn [Hlo Hhi].
  assert (0 < x) as Hx by (pose proof (Z.pow_pos_nonneg 2 (n - 1)); lia).
  destruct x as [| p | p]; try lia. simpl.
  pose proof (digits2_pos_bounds p) as [Hlo' Hhi'].
  set (d := Z.pos (digits2_pos p)) in *.
  destruct (Z.lt_trichotomy d n) as [Hlt | [Heq | Hgt]]; [| done | ].
  - assert (2 ^ d <= 2 ^ (n - 1)) by (apply Z.pow_le_mono_r; lia). lia.
  - assert (2 ^ n <= 2 ^ (d - 1)) by (apply Z.pow_le_mono_r; lia). lia.
Qed.

Lemma shr_1_eq m r s :
  0 <= m ->
  shr_1 {| shr_m := m; shr_r := r; shr_s := s |} =
  {| shr_m := Z.div2 m; shr_r := Z.odd m; shr_s := r || s |}.
Proof. destruct m as [| [p | p |] | p]; intros; try lia; reflexivity. Qed.

Lemma shr_1_located mrs N D :
  0 < D -> 0 <= N -> located mrs N D -> located (shr_1 mrs) N (2 * D).
Proof.
  intros HD HN. destruct mrs as [m r s]. intros (Hm & Hr & Hs).
  simpl in Hm, Hr, Hs.
  pose proof (Z.mod_pos_bound N D HD) as Hrho.
  assert (0 <= m) as Hm0 by (rewrite Hm; apply Z.div_pos; lia).
  rewrite shr_1_eq by done.
  assert (N / (2 * D) = Z.div2 m) as Hq.
  { rewrite Z.div2_div, Hm, (Z.mul_comm 2 D), Z.div_div; lia. }
  assert (N mod (2 * D) = N mod D + D * (if Z.odd m then 1 else 0)) as Hrem.
  { rewrite <- Zmod_odd, Hm, (Z.mul_comm 2 D). apply Z.rem_mul_r; lia. }
  unfold located. simpl. rewrite Hq, Hrem, Hr, Hs.
  split; [done |].
  destruct (Z.odd m); split;
    repeat match goal with
           | |- context [Z.leb ?a ?b] => destruct (Z.leb_spec a b)
           | |- context [Z.eqb ?a ?b] => destruct (Z.eqb_spec a b)
           end; simpl; try reflexivity; lia.
Qed.

Lemma iter_shr_1_located p : forall mrs N D,
  0 < D -> 0 <= N -> located mrs N D ->
  located (SpecFloat.iter_pos shr_1 p mrs) N (D * 2 ^ Z.pos p).
Proof.
  induction p as [p IH | p IH |]; intros mrs N D HD HN Hloc;
    simpl SpecFloat.iter_pos.
  - assert (0 < 2 ^ Z.pos p) as Hpow by (apply Z.pow_pos_nonneg; lia).
    replace (D * 2 ^ Z.pos p~1) with ((2 * D) * 2 ^ Z.pos p * 2 ^ Z.pos p).
    + apply IH; [nia | done |]. apply IH; [lia | done |].
      by apply shr_1_located.
    + replace (Z.pos p~1) with (Z.pos p + Z.pos p + 1) by lia.
      rewrite !Z.pow_add_r by lia. ring.
  - assert (0 < 2 ^ Z.pos p) as Hpow by (apply Z.pow_pos_nonneg; lia).
    replace (D * 2 ^ Z.pos p~0) with (D * 2 ^ Z.pos p * 2 ^ Z.pos p).
    + apply IH; [nia | done |]. by apply IH.
    + replace (Z.pos p~0) with (Z.pos p + Z.pos p) by lia.
      rewrite !Z.pow_add_r by lia. ring.
  - replace (D * 2 ^ 1) with (2 * D) by (rewrite Z.pow_1_r; ring).
    by apply shr_1_located.
Qed.

(** Shifting by [n >= 0] places. *)
Lemma shr_located mrs e n N D :
  0 < D -> 0 <= N -> 0 <= n -> located mrs N D ->
  located (shr mrs e n).1 N (D * 2 ^ n) /\ (shr mrs e n).2 = e + n.
Proof.
  intros HD HN Hn Hloc. destruct n as [| p | p]; [| | lia]; simpl.
  - rewrite Z.mul_1_r. split; [done | lia].
  - split; [by apply iter_shr_1_located | done].
Qed.

Lemma round_nearest_even_located mrs N D :
  0 < D -> located mrs N D ->
  round_nearest_even (shr_m mrs) (loc_of_shr_record mrs) = rne N D.
Proof.
  intros HD. destruct mrs as [m r s]. intros (Hm & Hr & Hs).
  simpl in Hm, Hr, Hs. unfold rne. simpl shr_m. rewrite <- Hm.
  pose proof (Z.mod_pos_bound N D HD) as Hrho.
  destruct (Z.compare_spec (2 * (N mod D)) D) as [Heq | Hlt | Hgt];
    destruct (Z.leb_spec D (2 * (N mod D))); try lia;
    destruct (Z.eqb_spec (N mod D) 0); try lia;
    destruct (Z.eqb_spec (2 * (N mod D)) D); try lia;
    simpl in Hr, Hs; subst r s; reflexivity.
Qed.

(** The location [SFdiv_core_binary] computes from the remainder. *)
Lemma new_location_located N D :
  0 < D -> 0 <= N ->
  located (shr_record_of_loc (N / D) (new_location D (N mod D))) N D.
Proof.
  intros HD HN. pose proof (Z.mod_pos_bound N D HD) as Hrho.
  unfold new_location, new_location_even, new_location_odd.
  destruct (Z.even D) eqn:Heven.
  - destruct (Z.eqb_spec (N mod D) 0) as [H0 | H0].
    + unfold located; simpl. rewrite H0. split; [done |].
      split; [symmetry; apply Z.leb_gt; lia | done].
    + destruct (Z.compare_spec (2 * (N mod D)) D); unfold located; simpl;
        (split; [done |]);
        destruct (Z.leb_spec D (2 * (N mod D))); try lia;
        destruct (Z.eqb_spec (N mod D) 0); try lia;
        destruct (Z.eqb_spec (2 * (N mod D)) D); try lia; done.
  - assert (2 * (N mod D) <> D) as Hodd.
    { intros Heq. rewrite <- Heq, Z.even_mul in Heven. done. }
    destruct (Z.eqb_spec (N mod D) 0) as [H0 | H0].
    + unfold located; simpl. rewrite H0. split; [done |].
      split; [symmetry; apply Z.leb_gt; lia | done].
    + destruct (Z.compare_spec (2 * (N mod D) + 1) D); unfold located; simpl;
        (split; [done |]);
        destruct (Z.leb_spec D (2 * (N mod D))); try lia;
        destruct (Z.eqb_spec (N mod D) 0); try lia;
        destruct (Z.eqb_spec (2 * (N mod D)) D); try lia; done.
Qed.

Lemma rne_bounds N D : 0 < D -> N / D <= rne N D <= N / D + 1.
Proof.
  intros HD. unfold rne.
  destruct (2 * (N mod D) ?= D); [destruct (Z.even (N / D)) | |]; lia.
Qed.

(** [rne N D] is a nearest integer to [N / D], and the even one on a tie. *)
Lemma rne_nearest N D :
  0 < D ->
  - D <= 2 * (rne N D * D - N) <= D /\
  (2 * (rne N D * D - N) = D \/ 2 * (rne N D * D - N) = - D ->
   Z.even (rne N D) = true).
Proof.
  intros HD. pose proof (Z.mod_pos_bound N D HD) as Hrho.
  pose proof (Z.div_mod N D ltac:(lia)) as Hdiv.
  unfold rne.
  destruct (Z.compare_spec (2 * (N mod D)) D) as [Heq | Hlt | Hgt].
  - destruct (Z.even (N / D)) eqn:Heven.
    + split; [nia |]. done.
    + split; [nia |]. intros _. rewrite Z.even_add, Heven. done.
  - split; [nia |]. intros [H | H]; nia.
  - split; [nia |]. intros [H | H]; nia.
Qed.

Lemma shr_m_of_loc m l : shr_m (shr_record_of_loc m l) = m.
Proof. by destruct l as [| []]. Qed.

Lemma fexp_normal e : -1074 <= e - 53 -> fexp 53 1024 e = e - 53.
Proof. intros He. unfold fexp, emin. lia. Qed.

(** Rounding a located value with at least 53 digits, away from the ends
    of the exponent range: the mantissa is [rne] of the value scaled to 53
    digits, renormalised when rounding carries to [2 ^ 53]. *)
Lemma binary_round_aux_located mx ex lx N D sh :
  0 < D -> 0 <= N ->
  located (shr_record_of_loc mx lx) N D ->
  sh = Zdigits2 mx - 53 ->
  0 <= sh -> -1074 <= ex + sh -> ex + sh + 1 <= 971 ->
  exists m e,
    binary_round_aux 53 1024 false mx ex lx = S754_finite false m e /\
    2 ^ 52 <= Z.pos m < 2 ^ 53 /\
    2 ^ 52 <= rne N (D * 2 ^ sh) /\
    ((e = ex + sh /\ Z.pos m = rne N (D * 2 ^ sh)) \/
     (e = ex + sh + 1 /\ 2 * Z.pos m = rne N (D * 2 ^ sh))).
Proof.
  intros HD HN Hloc Hsh Hsh0 Hlo Hhi.
  assert (mx = N / D) as Hmx.
  { destruct Hloc as [Hm _]. by rewrite shr_m_of_loc in Hm. }
  assert (2 ^ (52 + sh) <= mx < 2 ^ (53 + sh)) as Hdig.
  { assert (0 <= mx) as Hmx0 by (rewrite Hmx; apply Z.div_pos; lia).
    destruct mx as [| p | p]; simpl in Hsh; [lia | | lia].
    pose proof (digits2_pos_bounds p) as Hb.
    replace (52 + sh) with (Z.pos (digits2_pos p) - 1) by lia.
    replace (53 + sh) with (Z.pos (digits2_pos p)) by lia. done. }
  assert (0 < 2 ^ sh) as Hpow by (apply Z.pow_pos_nonneg; lia).
  assert (0 < D * 2 ^ sh) as HD' by nia.
  assert (2 ^ 52 <= N / (D * 2 ^ sh) < 2 ^ 53) as Hq.
  { rewrite <- Z.div_div, <- Hmx by lia.
    rewrite !Z.pow_add_r in Hdig by lia. split.
    - apply Z.div_le_lower_bound; lia.
    - apply Z.div_lt_upper_bound; lia. }
  pose proof (rne_bounds N (D * 2 ^ sh) HD') as HR.
  unfold binary_round_aux, shr_fexp.
  rewrite fexp_normal by lia.
  replace (Zdigits2 mx + ex - 53 - ex) with sh by lia.
  destruct (shr_located (shr_record_of_loc mx lx) ex sh N D HD HN Hsh0 Hloc)
    as [Hloc1 He1].
  destruct (shr (shr_record_of_loc mx lx) ex sh) as [mrs' e'].
  simpl in Hloc1, He1. subst e'.
  rewrite (round_nearest_even_located mrs' N (D * 2 ^ sh) HD' Hloc1).
  set (R := rne N (D * 2 ^ sh)) in *.
  destruct (Z.eq_dec R (2 ^ 53)) as [Hcarry | Hnocarry].
  - rewrite Hcarry. change (Zdigits2 (2 ^ 53)) with 54.
    rewrite fexp_normal by lia.
    replace (54 + (ex + sh) - 53 - (ex + sh)) with 1 by lia.
    change (shr (shr_record_of_loc (2 ^ 53) loc_Exact) (ex + sh) 1)
      with ({| shr_m := 4503599627370496; shr_r := false; shr_s := false |},
            ex + sh + 1).
    cbv beta iota. cbn [shr_m]. change (1024 - 53) with 971.
    destruct (Z.leb_spec (ex + sh + 1) 971); [| lia].
    exists 4503599627370496%positive, (ex + sh + 1). split; [reflexivity |].
    change (2 ^ 52) with 4503599627370496.
    change (2 ^ 53) with 9007199254740992 in *.
    split; [lia |]. split; [lia |]. right. split; [done | lia].
  - assert (Zdigits2 R = 53) as HdR by (apply Zdigits2_unique; lia).
    rewrite HdR, fexp_normal by lia.
    replace (53 + (ex + sh) - 53 - (ex + sh)) with 0 by lia.
    destruct R as [| m | m] eqn:ER; [lia | | lia].
    change (shr (shr_record_of_loc (Z.pos m) loc_Exact) (ex + sh) 0)
      with ({| shr_m := Z.pos m; shr_r := false; shr_s := false |}, ex + sh).
    cbv beta iota. cbn [shr_m]. change (1024 - 53) with 971.
    destruct (Z.leb_spec (ex + sh) 971); [| lia].
    exists m, (ex + sh). split; [reflexivity |].
    split; [lia |]. split; [lia |]. left. done.
Qed.

(** The arithmetic behind the thumbnail height: [R1] is a nearest integer
    to [h * K / w], [R2] the nearest-even integer to [5 * R1 / C], and
    [K = 128 * T * C]; then [R2] truncated by [T] is [640 * h / w]
    truncated. *)
Lemma trunc_core h w n rho R1 K R2 T T2 C C2 :
  0 < w -> 640 * h = n * w + rho -> 0 <= rho < w ->
  K = 128 * (T * C) -> C = 2 * C2 -> 2 <= C2 -> T = 2 * T2 -> 2 * w <= T ->
  - w <= 2 * (R1 * w - h * K) <= w ->
  - C <= 2 * (R2 * C - 5 * R1) <= C ->
  (2 * (R2 * C - 5 * R1) = C \/ 2 * (R2 * C - 5 * R1) = - C ->
   Z.even R2 = true) ->
  n * T <= R2 < (n + 1) * T.
Proof.
  intros Hw Hn Hrho HK HC HC2 HT HTw H1 H2 Htie.
  assert (5 * (h * K) = (n * w + rho) * (T * C)) as H5 by (rewrite HK; nia).
  assert (0 < T * C) as HTC by nia.
  split.
  - destruct (Z_le_gt_dec (n * T) R2) as [| Hlt]; [done | exfalso].
    assert (5 * R1 <= n * (T * C) - C2 - 1) as Hup.
    { destruct (Z.eq_dec R2 (n * T - 1)) as [-> | Hne].
      - assert (2 * ((n * T - 1) * C - 5 * R1) <> - C) as Hnotie.
        { intros Heq. specialize (Htie (or_intror Heq)).
          replace (n * T - 1) with (1 + 2 * (n * T2 - 1)) in Htie by lia.
          rewrite Z.even_add_mul_2 in Htie. done. }
        nia.
      - assert (R2 <= n * T - 2) by lia. nia. }
    assert (10 * (R1 * w) >= 2 * (n * w) * (T * C) - 5 * w) by nia.
    nia.
  - destruct (Z_lt_ge_dec R2 ((n + 1) * T)) as [| Hge]; [done | exfalso].
    assert (5 * R1 >= (n + 1) * (T * C) - C2) as Hlo by nia.
    assert (10 * (R1 * w) <= 2 * ((n * w + (w - 1)) * (T * C)) + 5 * w) as Hup.
    { assert ((n * w + rho) * (T * C) <= (n * w + (w - 1)) * (T * C)) by nia.
      nia. }
    assert (((n + 1) * (T * C) - C2) * w <= 5 * R1 * w) as Hlow
      by (apply Z.mul_le_mono_nonneg_r; lia).
    assert (10 * (R1 * w) >= 2 * ((n + 1) * (T * C) - C2) * w) by lia.
    assert (2 * (T * C) <= 2 * C2 * w + 5 * w) by nia.
    nia.
Qed.

Lemma pos_iter_xO p k : Z.pos (Pos.iter xO p k) = Z.pos p * 2 ^ Z.pos k.
Proof.
  induction k as [| k IH] using Pos.peano_ind.
  - simpl. lia.
  - rewrite Pos.iter_succ, Pos2Z.inj_xO, IH, Pos2Z.inj_succ, Z.pow_succ_r by lia.
    ring.
Qed.

Lemma rne_exact q D : 0 < D -> rne (q * D) D = q.
Proof.
  intros HD. unfold rne. rewrite Z.div_mul, Z.mod_mul by lia.
  destruct (Z.compare_spec (2 * 0) D); [lia | done | lia].
Qed.

Lemma located_exact m : 0 <= m -> located (shr_record_of_loc m loc_Exact) m 1.
Proof.
  intros Hm. unfold located. simpl. rewrite Z.div_1_r, Z.mod_1_r. done.
Qed.

(** An exact value with at least 53 digits that is a multiple of the
    shift rounds to itself. *)
Lemma binary_round_aux_exact (m : positive) mx ex sh :
  2 ^ 52 <= Z.pos m < 2 ^ 53 ->
  mx = Z.pos m * 2 ^ sh -> 0 <= sh ->
  -1074 <= ex + sh -> ex + sh + 1 <= 971 ->
  binary_round_aux 53 1024 false mx ex loc_Exact = S754_finite false m (ex + sh).
Proof.
  intros Hm Hmx Hsh Hlo Hhi.
  assert (0 < 2 ^ sh) as Hpow by (apply Z.pow_pos_nonneg; lia).
  assert (Zdigits2 mx = 53 + sh) as Hdig.
  { apply Zdigits2_unique; [lia |].
    replace (53 + sh - 1) with (52 + sh) by lia.
    rewrite !Z.pow_add_r by lia. nia. }
  destruct (binary_round_aux_located mx ex loc_Exact mx 1 sh)
    as (m' & e' & Hrun & Hm' & _ & Hcase);
    [lia | nia | apply located_exact; nia | lia | lia | lia | lia |].
  rewrite Hrun. rewrite Z.mul_1_l, Hmx, rne_exact in Hcase by done.
  destruct Hcase as [[-> Heq] | [_ Heq]]; [| lia].
  by injection Heq as ->.
Qed.

Lemma of_int_normal n :
  0 < n < 2 ^ 53 ->
  exists m a,
    PyFloat.of_int n = Returned (S754_finite false m (- a)) /\
    0 <= a /\ Z.pos m = n * 2 ^ a /\ 2 ^ 52 <= Z.pos m < 2 ^ 53.
Proof.
  intros Hn. destruct n as [| p | p]; [lia | | lia].
  pose proof (digits2_pos_bounds p) as Hb.
  set (d := Z.pos (digits2_pos p)) in *.
  assert (d <= 53) as Hd.
  { destruct (Z_le_gt_dec d 53); [done |].
    assert (2 ^ 53 <= 2 ^ (d - 1)) by (apply Z.pow_le_mono_r; lia). lia. }
  assert (0 < d) as Hd0 by (unfold d; lia).
  unfold PyFloat.of_int, binary_normalize, binary_round, PyFloat.prec,
    PyFloat.emax.
  fold d. rewrite Z.add_0_r, fexp_normal by lia. unfold shl_align.
  destruct (d - 53 - 0) as [| k | k] eqn:Hk; [| lia |].
  - assert (d = 53) as Hd53 by lia. rewrite Hd53 in Hb.
    rewrite (binary_round_aux_exact p (Z.pos p) 0 0); [| lia | lia | lia | lia | lia].
    exists p, 0. split; [done |]. split; [lia |]. split; [lia | lia].
  - assert (Z.pos (Pos.iter xO p k) = Z.pos p * 2 ^ (53 - d)) as Hshl.
    { rewrite pos_iter_xO. f_equal. f_equal. lia. }
    assert (2 ^ 52 <= Z.pos p * 2 ^ (53 - d) < 2 ^ 53) as Hm.
    { replace 52 with ((d - 1) + (53 - d)) at 1 by lia.
      replace 53 with (d + (53 - d)) at 4 by lia.
      rewrite !Z.pow_add_r by lia.
      assert (0 < 2 ^ (53 - d)) by (apply Z.pow_pos_nonneg; lia). nia. }
    rewrite (binary_round_aux_exact (Pos.iter xO p k) _ (d - 53) 0);
      [| lia | lia | lia | lia | lia].
    exists (Pos.iter xO p k), (53 - d). split.
    { rewrite Z.add_0_r. do 3 f_equal. lia. }
    split; [lia |]. split; [done | lia].
Qed.

Lemma mul_one_normal (m : positive) e :
  2 ^ 52 <= Z.pos m < 2 ^ 53 -> -1074 <= e -> e + 1 <= 971 ->
  PyFloat.mul (S754_finite false m e) PyFloat.one = S754_finite false m e.
Proof.
  intros Hm Hlo Hhi.
  change PyFloat.one with (S754_finite false 4503599627370496 (-52)).
  unfold PyFloat.mul, SFmul, PyFloat.prec, PyFloat.emax. simpl xorb.
  rewrite (binary_round_aux_exact m _ (e + -52) 52); [| done | | lia | lia | lia].
  - f_equal. lia.
  - rewrite Pos2Z.inj_mul. done.
Qed.

(** [float(h) / float(w)]: the mantissa of the quotient is a nearest
    integer to [h * 2 ^ k / w], for the [k] that gives it 53 digits. *)
Lemma truediv_normal (mh mw : positive) a b :
  2 ^ 52 <= Z.pos mh < 2 ^ 53 -> 2 ^ 52 <= Z.pos mw < 2 ^ 53 ->
  0 <= a <= 52 -> 0 <= b <= 52 ->
  exists m e sh g,
    PyFloat.truediv (S754_finite false mh (- a)) (S754_finite false mw (- b)) =
      Returned (S754_finite false m e) /\
    2 ^ 52 <= Z.pos m < 2 ^ 53 /\
    0 <= sh <= 1 /\ (g = 1 \/ g = 2) /\
    e = b - a - 53 + sh + (g - 1) /\
    2 ^ 52 <= g * Z.pos m /\
    - (Z.pos mw * 2 ^ sh) <=
      2 * (g * Z.pos m * (Z.pos mw * 2 ^ sh) - Z.pos mh * 2 ^ 53) <=
      Z.pos mw * 2 ^ sh.
Proof.
  intros Hmh Hmw Ha Hb.
  unfold PyFloat.truediv, SFdiv, SFdiv_core_binary, PyFloat.prec, PyFloat.emax.
  simpl xorb.
  rewrite (Zdigits2_unique (Z.pos mh) 53), (Zdigits2_unique (Z.pos mw) 53)
    by (done || lia).
  rewrite fexp_normal by lia.
  replace (Z.min (53 + - a - (53 + - b) - 53) (- a - - b)) with (b - a - 53)
    by lia.
  replace (- a - - b - (b - a - 53)) with 53 by lia.
  rewrite Z.shiftl_mul_pow2 by lia.
  set (N := Z.pos mh * 2 ^ 53).
  assert (0 <= N) as HN by (unfold N; lia).
  assert (Z.div_eucl N (Z.pos mw) = (N / Z.pos mw, N mod Z.pos mw)) as ->.
  { unfold Z.div, Z.modulo. by destruct (Z.div_eucl N (Z.pos mw)). }
  set (q := N / Z.pos mw).
  assert (2 ^ 52 <= q < 2 ^ 54) as Hq.
  { unfold q, N. split.
    - apply Z.div_le_lower_bound; [lia |].
      change (2 ^ 53) with (2 * 2 ^ 52) in *. nia.
    - apply Z.div_lt_upper_bound; [lia |].
      change (2 ^ 54) with (4 * 2 ^ 52). change (2 ^ 53) with (2 * 2 ^ 52) in *.
      nia. }
  set (sh := Zdigits2 q - 53).
  assert (0 <= sh <= 1) as Hsh.
  { assert (0 < q) as Hq0 by lia.
    destruct q as [| p | p] eqn:Eq; [lia | | lia].
    pose proof (digits2_pos_bounds p) as Hb'. unfold sh. simpl.
    set (d := Z.pos (digits2_pos p)) in *. split.
    - destruct (Z_le_gt_dec 53 d); [lia |].
      assert (2 ^ d <= 2 ^ 52) by (apply Z.pow_le_mono_r; lia). lia.
    - destruct (Z_le_gt_dec d 54); [lia |].
      assert (2 ^ 54 <= 2 ^ (d - 1)) by (apply Z.pow_le_mono_r; lia). lia. }
  destruct (binary_round_aux_located q (b - a - 53)
              (new_location (Z.pos mw) (N mod Z.pos mw)) N (Z.pos mw) sh)
    as (m & e & Hrun & Hm & HR & Hcase);
    [lia | done | apply new_location_located; lia | done | lia | lia | lia |].
  rewrite Hrun.
  pose proof (rne_nearest N (Z.pos mw * 2 ^ sh)) as [Hnear _].
  { assert (0 < 2 ^ sh) by (apply Z.pow_pos_nonneg; lia). nia. }
  destruct Hcase as [[-> Heq] | [-> Heq]].
  - exists m, (b - a - 53 + sh), sh, 1. rewrite <- Heq in Hnear, HR.
    split; [done |]. split; [done |]. split; [done |]. split; [auto |].
    split; [lia |]. split; [lia |]. by rewrite Z.mul_1_l.
  - exists m, (b - a - 53 + sh + 1), sh, 2. rewrite <- Heq in Hnear, HR.
    split; [done |]. split; [done |]. split; [done |]. split; [auto |].
    split; [lia |]. split; [lia |]. done.
Qed.

(** [x * 640.0]: the mantissa of the product is the nearest-even integer
    to [640 * x] scaled to 53 digits. *)
Lemma mul_640_normal (m : positive) e :
  2 ^ 52 <= Z.pos m < 2 ^ 53 -> -1074 <= e + 9 -> e + 12 <= 971 ->
  exists m2 e2 sh2 g2,
    PyFloat.mul (S754_finite false m e)
      (S754_finite false 5629499534213120 (-43)) = S754_finite false m2 e2 /\
    2 ^ 52 <= Z.pos m2 < 2 ^ 53 /\
    52 <= sh2 <= 53 /\ (g2 = 1 \/ g2 = 2) /\
    e2 = e - 43 + sh2 + (g2 - 1) /\
    - 2 ^ sh2 <= 2 * (g2 * Z.pos m2 * 2 ^ sh2 - Z.pos m * (5 * 2 ^ 50)) <=
      2 ^ sh2 /\
    (2 * (g2 * Z.pos m2 * 2 ^ sh2 - Z.pos m * (5 * 2 ^ 50)) = 2 ^ sh2 \/
     2 * (g2 * Z.pos m2 * 2 ^ sh2 - Z.pos m * (5 * 2 ^ 50)) = - 2 ^ sh2 ->
     Z.even (g2 * Z.pos m2) = true).
Proof.
  intros Hm Hlo Hhi.
  unfold PyFloat.mul, SFmul, PyFloat.prec, PyFloat.emax. simpl xorb.
  rewrite Pos2Z.inj_mul. change (Z.pos 5629499534213120) with (5 * 2 ^ 50).
  set (N := Z.pos m * (5 * 2 ^ 50)).
  assert (2 ^ 104 <= N < 2 ^ 106) as HN.
  { unfold N. change (2 ^ 104) with (2 ^ 52 * (4 * 2 ^ 50)).
    change (2 ^ 106) with (2 ^ 53 * (8 * 2 ^ 50)).
    assert (0 < 2 ^ 50) by done. nia. }
  set (sh2 := Zdigits2 N - 53).
  assert (52 <= sh2 <= 53) as Hsh.
  { assert (0 < N) as HN0 by lia.
    destruct N as [| p | p] eqn:EN; [lia | | lia].
    pose proof (digits2_pos_bounds p) as Hb'. unfold sh2. simpl.
    set (d := Z.pos (digits2_pos p)) in *. split.
    - destruct (Z_le_gt_dec 105 d); [lia |].
      assert (2 ^ d <= 2 ^ 104) by (apply Z.pow_le_mono_r; lia). lia.
    - destruct (Z_le_gt_dec d 106); [lia |].
      assert (2 ^ 106 <= 2 ^ (d - 1)) by (apply Z.pow_le_mono_r; lia). lia. }
  destruct (binary_round_aux_located N (e + -43) loc_Exact N 1 sh2)
    as (m2 & e2 & Hrun & Hm2 & HR & Hcase);
    [lia | lia | apply located_exact; lia | done | lia | lia | lia |].
  rewrite Hrun. rewrite Z.mul_1_l in Hcase, HR.
  assert (0 < 2 ^ sh2) as Hpow by (apply Z.pow_pos_nonneg; lia).
  pose proof (rne_nearest N (2 ^ sh2) Hpow) as [Hnear Htie].
  destruct Hcase as [[-> Heq] | [-> Heq]].
  - exists m2, (e + -43 + sh2), sh2, 1. rewrite <- Heq in Hnear, Htie.
    rewrite Z.mul_1_l.
    split; [done |]. split; [done |]. split; [done |]. split; [auto |].
    split; [lia |]. split; [done |]. done.
  - exists m2, (e + -43 + sh2 + 1), sh2, 2. rewrite <- Heq in Hnear, Htie.
    split; [done |]. split; [done |]. split; [done |]. split; [auto |].
    split; [lia |]. split; [done |]. done.
Qed.

Lemma to_int_nonpos (m : positive) e :
  e <= 0 -> PyFloat.to_int (S754_finite false m e) = Returned (Z.pos m / 2 ^ (- e)).
Proof.
  intros He. unfold PyFloat.to_int, cond_Zopp.
  destruct e as [| p | p]; [| lia |].
  - simpl. by rewrite Z.div_1_r, Z.mul_1_r.
  - done.
Qed.

Lemma scale_bounds X Y A C g P :
  0 < g -> 0 < P -> X * g = Y * P -> A * g = C * P -> - A <= X <= A ->
  - C <= Y <= C /\ (Y = C \/ Y = - C -> X = A \/ X = - A).
Proof.
  intros Hg HP HXY HAC HX.
  assert (- (C * P) <= Y * P <= C * P) as HYP by (rewrite <- HXY, <- HAC; nia).
  split; [nia |].
  intros [-> | ->]; [left | right]; apply (Z.mul_cancel_r _ _ g); lia.
Qed.

Lemma nearest_unscale R1 w h K S :
  0 < S ->
  - (w * S) <= 2 * (R1 * (w * S) - h * K * S) <= w * S ->
  - w <= 2 * (R1 * w - h * K) <= w.
Proof.
  intros HS.
  replace (2 * (R1 * (w * S) - h * K * S))
    with (2 * (R1 * w - h * K) * S) by ring.
  replace (- (w * S)) with (- w * S) by ring.
  intros [Hlo Hhi]. split; by apply (Z.mul_le_mono_pos_r _ _ S).
Qed.

(** A quotient with 53 digits, of a height of at most 39 digits, is
    scaled by at least [2 ^ 12 * w]. *)
Lemma quotient_scale_lower h w R1 K :
  0 < w -> 0 <= h <= 2 ^ 39 -> 2 ^ 52 <= R1 -> 0 < K ->
  - w <= 2 * (R1 * w - h * K) <= w ->
  2 ^ 12 * w <= K.
Proof.
  change (2 ^ 39) with 549755813888. change (2 ^ 52) with 4503599627370496.
  change (2 ^ 12) with 4096.
  intros Hw Hh HR1 HK Hnear.
  assert (4503599627370496 * w <= R1 * w) as HRw
    by (apply Z.mul_le_mono_nonneg_r; lia).
  assert (h * K <= 549755813888 * K) as HhK
    by (apply Z.mul_le_mono_nonneg_r; lia).
  lia.
Qed.

Lemma pow2_ge_exp K k w c :
  K = 2 ^ k -> 2 ^ c * w <= K -> 0 < w -> 0 <= c -> c <= k.
Proof.
  intros HK Hle Hw Hc.
  destruct (Z_le_gt_dec c k) as [| Hgt]; [done | exfalso].
  assert (0 < 2 ^ c) by (apply Z.pow_pos_nonneg; lia).
  destruct (Z_lt_le_dec k 0) as [Hneg | Hpos].
  - rewrite Z.pow_neg_r in HK by done. nia.
  - assert (2 ^ k < 2 ^ c) by (apply Z.pow_lt_mono_r; lia). nia.
Qed.

Lemma outcome_bind_returned {A B} (a : A) (f : A -> outcome B) :
  Returned a ≫= f = f a.
Proof. reflexivity. Qed.

Lemma thumbnail_size_truncates (w h : Z) :
  0 < w < 2 ^ 53 -> 0 <= h <= 2 ^ 39 ->
  thumbnail_size w h 640 = Returned (640, h * 640 / w).
Proof.
  intros Hw Hh.
  destruct (Z.eq_dec h 0) as [-> | Hh0].
  { destruct (of_int_normal w Hw) as (mw & b & Hfw & _).
    unfold thumbnail_size.
    change (PyFloat.of_int 0) with (Returned (S754_zero false)).
    rewrite outcome_bind_returned, Hfw, outcome_bind_returned. done. }
  destruct (of_int_normal h) as (mh & a & Hfh & Ha & Hmh & Hmhb).
  { change (2 ^ 53) with (2 ^ 39 * 16384). change (2 ^ 39) with 549755813888 in *.
    lia. }
  destruct (of_int_normal w Hw) as (mw & b & Hfw & Hb & Hmw & Hmwb).
  assert (a <= 52) as Ha52.
  { destruct (Z_le_gt_dec a 52); [done | exfalso].
    assert (2 ^ 53 <= 2 ^ a) by (apply Z.pow_le_mono_r; lia). nia. }
  assert (b <= 52) as Hb52.
  { destruct (Z_le_gt_dec b 52); [done | exfalso].
    assert (2 ^ 53 <= 2 ^ b) by (apply Z.pow_le_mono_r; lia). nia. }
  destruct (truediv_normal mh mw a b) as
    (m1 & e1 & sh & g & Hdiv & Hm1 & Hsh & Hg & He1 & HR1 & Hnear1);
    [done | done | lia | lia |].
  destruct (mul_640_normal m1 e1) as
    (m2 & e2 & sh2 & g2 & Hmul & Hm2 & Hsh2 & Hg2 & He2 & Hnear2 & Htie2);
    [done | lia | lia |].
  unfold thumbnail_size.
  rewrite Hfh, outcome_bind_returned, Hfw, outcome_bind_returned.
  rewrite mul_one_normal by (done || lia).
  rewrite Hdiv, outcome_bind_returned.
  change (PyFloat.of_int 640)
    with (Returned (S754_finite false 5629499534213120 (-43))).
  rewrite outcome_bind_returned, Hmul.
  (* the integers behind the two roundings *)
  set (k := a + 53 - b - sh).
  set (K := 2 ^ k).
  set (S := 2 ^ (b + sh)).
  assert (0 < S) as HS by (apply Z.pow_pos_nonneg; lia).
  assert (Z.pos mw * 2 ^ sh = w * S) as HwS.
  { unfold S. rewrite Hmw, Z.pow_add_r by lia. ring. }
  assert (Z.pos mh * 2 ^ 53 = h * K * S) as HhKS.
  { unfold K, S, k. rewrite Hmh.
    rewrite <- !Z.mul_assoc, <- !Z.pow_add_r by lia. do 2 f_equal. lia. }
  rewrite HwS, HhKS in Hnear1.
  set (R1 := g * Z.pos m1) in *.
  assert (- w <= 2 * (R1 * w - h * K) <= w) as H1
    by (by apply (nearest_unscale _ _ _ _ S)).
  assert (2 ^ 12 * w <= K) as HK12.
  { apply (quotient_scale_lower h w R1 K); [lia | done | done | | done].
    unfold K, k. apply Z.pow_pos_nonneg; lia. }
  assert (12 <= k) as Hk by (apply (pow2_ge_exp K k w 12); [done | done | lia | lia]).
  set (t := k + 43 - sh2 - (g - 1)).
  assert (1 <= t) as Ht by (unfold t; lia).
  set (T := 2 ^ t).
  set (C := g * 2 ^ (sh2 - 50)).
  set (R2 := g2 * Z.pos m2) in *.
  assert (0 < 2 ^ (sh2 - 51)) as Hp51 by (apply Z.pow_pos_nonneg; lia).
  assert (2 ^ (sh2 - 50) = 2 * 2 ^ (sh2 - 51)) as Hp50.
  { replace (sh2 - 50) with (Z.succ (sh2 - 51)) by lia.
    rewrite Z.pow_succ_r by lia. done. }
  assert (2 ^ sh2 * g = C * 2 ^ 50) as HC50.
  { unfold C. replace sh2 with ((sh2 - 50) + 50) at 1 by lia.
    rewrite Z.pow_add_r by lia. ring. }
  assert (K = 128 * (T * C)) as HKTC.
  { unfold K, T, C, t. change 128 with (2 ^ 7).
    destruct Hg as [-> | ->].
    - rewrite Z.mul_1_l, <- !Z.pow_add_r by lia. f_equal. lia.
    - replace (2 * 2 ^ (sh2 - 50)) with (2 ^ (sh2 - 49)).
      + rewrite <- !Z.pow_add_r by lia. f_equal. lia.
      + replace (sh2 - 49) with (Z.succ (sh2 - 50)) by lia.
        by rewrite Z.pow_succ_r by lia. }
  assert (sh2 = 52 \/ sh2 = 53) as Hsh2' by lia.
  assert (C = 4 \/ C = 8 \/ C = 16) as HC.
  { unfold C. destruct Hg as [-> | ->], Hsh2' as [-> | ->]; simpl; auto. }
  assert (- C <= 2 * (R2 * C - 5 * R1) <= C /\
          (2 * (R2 * C - 5 * R1) = C \/ 2 * (R2 * C - 5 * R1) = - C ->
           Z.even R2 = true)) as [H2 H2tie].
  { assert (2 * (R2 * 2 ^ sh2 - Z.pos m1 * (5 * 2 ^ 50)) * g =
            2 * (R2 * C - 5 * R1) * 2 ^ 50) as Hscale.
    { unfold R1. replace (2 * (R2 * 2 ^ sh2 - Z.pos m1 * (5 * 2 ^ 50)) * g)
        with (2 * (R2 * (2 ^ sh2 * g) - 5 * (g * Z.pos m1) * 2 ^ 50)) by ring.
      rewrite HC50. ring. }
    destruct (scale_bounds _ _ _ _ g (2 ^ 50) ltac:(lia) ltac:(done)
                Hscale HC50 Hnear2) as [Hbnd Hends].
    split; [done |]. intros Hcase. apply Htie2. by apply Hends. }
  assert (2 * w <= T) as HTw.
  { change (2 ^ 12) with 4096 in HK12.
    destruct HC as [HC | [HC | HC]]; rewrite HC in HKTC; lia. }
  assert (T = 2 * 2 ^ (t - 1)) as HT2.
  { unfold T. replace t with (Z.succ (t - 1)) at 1 by lia.
    rewrite Z.pow_succ_r by lia. done. }
  pose proof (Z.div_mod (h * 640) w ltac:(lia)) as Hdm.
  pose proof (Z.mod_pos_bound (h * 640) w ltac:(lia)) as Hrho.
  assert (h * 640 / w * T <= R2 < (h * 640 / w + 1) * T) as Hbounds.
  { apply (trunc_core h w (h * 640 / w) ((h * 640) mod w) R1 K R2 T
             (2 ^ (t - 1)) C (C / 2)); try done; try lia.
    - destruct HC as [-> | [-> | ->]]; done.
    - destruct HC as [-> | [-> | ->]]; done. }
  rewrite to_int_nonpos by lia. rewrite outcome_bind_returned.
  unfold mret, outcome_ret. do 2 f_equal.
  assert (0 < 2 ^ (t - 1)) as HT0 by (apply Z.pow_pos_nonneg; lia).
  destruct Hg2 as [Hg2 | Hg2]; rewrite Hg2 in *.
  - replace (- e2) with t by lia. fold T. unfold R2 in Hbounds.
    symmetry. apply Z.div_unique with (r := Z.pos m2 - h * 640 / w * T); lia.
  - replace (- e2) with (t - 1) by lia. unfold R2 in Hbounds.
    symmetry.
    apply Z.div_unique with (r := Z.pos m2 - h * 640 / w * 2 ^ (t - 1)); lia.
Qed.

End ThumbnailGeometry.




Example thumbnail_800_600 : thumbnail_size 800 600 640 = Returned (640, 480)%Z.
Proof. vm_compute. reflexivity. Qed.

(** * Further properties *)

(** ** The mapper *)

(** X1: the mapper returns a dictionary exactly when the stems of the paths
    are pairwise distinct; a path listed twice makes it raise like two paths
    with one stem do. *)
Theorem build_asset_mapping_returns_iff (paths : list string) :
  (∃ m, build_asset_mapping paths = Returned m) ↔
  NoDup (asset_id_for_path <$> paths).
Proof.
  destruct (build_asset_mapping_from_spec paths ∅ [] maps_paths_empty)
    as [(m & Hrun & Hnd & _) | (pre & first & second & post & Heq & _ & Hin & Hstem & Hrun)];
    unfold build_asset_mapping; rewrite Hrun; simpl in *.
  - split; [done | eauto].
  - split; [by intros [m Hm] |].
    intros Hnd. rewrite Heq in Hnd.
    by apply NoDup_fmap_prefix_elem with (first := first) in Hnd.
Qed.

(** ** Builds that stop before caching *)

Lemma bind_raised {A B} (m : M A) (f : A → M B) (w w' : world) e :
  m w = (Raised e, w') → (m ≫= f) w = (Raised e, w').
Proof. intros Hm. by rewrite bind_run, Hm. Qed.

(** X2: when the asset directory is not a directory the build raises
    [ValueError] at once: nothing is printed, the cache directory is not
    created, the enumerator, the driver and the pipeline are not used. *)
Theorem build_cache_invalid_asset_dir env cacher_f asset_path_f cache_f
    asset_dir recursive ext cache_dir (w : world) :
  dirs w !! abspath env (expanduser env asset_dir) = None →
  build_cache env cacher_f asset_path_f cache_f asset_dir recursive ext
    cache_dir w =
  (Raised (ValueError
     (abspath env (expanduser env asset_dir) +:+ " is not a directory.")), w).
Proof.
  intros Hnone. unfold build_cache. apply bind_raised.
  unfold ensure_asset_dir. rewrite bind_run. simpl.
  rewrite bool_decide_eq_false_2; [done |]. rewrite Hnone. by intros [? ?].
Qed.

Lemma ensure_cache_dir_creates env cache_dir (w : world) :
  dirs w !! resolve_cache_dir env cache_dir = None →
  ensure_cache_dir env cache_dir w =
  (Returned (resolve_cache_dir env cache_dir),
   World (<[resolve_cache_dir env cache_dir := ∅]> (dirs w))
     (stdout w ++ ["Warning the cache dir does not exist - creating..."] ++
      ["cache:     " +:+ resolve_cache_dir env cache_dir])).
Proof.
  intros Hnone. unfold ensure_cache_dir.
  fold (resolve_cache_dir env cache_dir). rewrite bind_run. simpl.
  rewrite bool_decide_eq_false_2 by (rewrite Hnone; by intros [? ?]).
  simpl. rewrite !bind_run. simpl. unfold mkdir. simpl. rewrite Hnone.
  rewrite bind_run. simpl. by rewrite <- app_assoc.
Qed.

(** Past the check of the asset directory, the plan reaches the mapper in
    a world where the cache directory exists and no entry has changed. *)
Lemma build_cache_plan_reaches_mapper env asset_path_f asset_dir recursive ext
    cache_dir (w : world) :
  is_Some (dirs w !! abspath env (expanduser env asset_dir)) →
  ∃ w1 : world,
    extends w w1 ∧
    (∃ entries, dirs w1 !! resolve_cache_dir env cache_dir = Some entries ∧
       (dirs w !! resolve_cache_dir env cache_dir = None → entries = ∅)) ∧
    build_cache_plan env asset_path_f asset_dir recursive ext cache_dir w =
    (lift (build_asset_mapping
             (scanned_paths env asset_path_f asset_dir recursive ext)) ≫=
       λ asset_id_to_paths,
         listdir (resolve_cache_dir env cache_dir) ≫= λ listing,
         print (pretty (size (uncached_ids asset_id_to_paths listing)) +:+
                " assets need to be added to the cache") ≫= λ _,
         lift (path_asset_id_of asset_id_to_paths
                 (set_iter env (uncached_ids asset_id_to_paths listing))) ≫=
           λ path_asset_id,
         mret (resolve_cache_dir env cache_dir,
               uncached_ids asset_id_to_paths listing, path_asset_id)) w1.
Proof.
  intros Had.
  destruct (ensure_asset_dir_runs env asset_dir w Had) as [out1 H1].
  set (w0 := World (dirs w) out1).
  assert (∃ w2 : world,
            ensure_cache_dir env cache_dir w0 =
              (Returned (resolve_cache_dir env cache_dir), w2) ∧
            extends w w2 ∧
            ∃ entries, dirs w2 !! resolve_cache_dir env cache_dir = Some entries ∧
              (dirs w !! resolve_cache_dir env cache_dir = None → entries = ∅))
    as (w2 & H2 & Hext & entries & Hentries & Hfresh).
  { destruct (dirs w !! resolve_cache_dir env cache_dir) as [entries |] eqn:Hcd.
    - destruct (ensure_cache_dir_runs env cache_dir w0) as [out2 H2];
        [simpl; eauto |].
      eexists. split; [exact H2 |]. split; [by apply extends_dirs_eq |].
      exists entries. split; [done | done].
    - eexists. split; [by apply ensure_cache_dir_creates |].
      split.
      + apply (steps_extends_mkdir (resolve_cache_dir env cache_dir)
                 w (Returned ()) (World _ (stdout w))).
        unfold mkdir. by rewrite Hcd.
      + exists ∅. simpl. by rewrite lookup_insert_eq. }
  assert (∀ w3 : world, dirs w3 = dirs w2 →
            extends w w3 ∧
            ∃ entries, dirs w3 !! resolve_cache_dir env cache_dir = Some entries ∧
              (dirs w !! resolve_cache_dir env cache_dir = None → entries = ∅))
    as Hkeep.
  { intros w3 Heq. split.
    - transitivity w2; [done | by apply extends_dirs_eq].
    - exists entries. by rewrite Heq. }
  unfold build_cache_plan, scanned_paths.
  rewrite bind_run, H1, bind_run. fold w0. rewrite H2.
  destruct recursive, ext as [e |]; rewrite !bind_run; simpl;
    rewrite ?bind_run; simpl;
    (eexists; split; [| split; [| reflexivity]]; apply Hkeep; reflexivity).
Qed.



(** ** Caching one asset *)


(** X6: when the name of the asset is taken by a regular file, [cache_asset]
    fails in [os.mkdir]: the pipeline is not run and no directory changes. *)
Theorem cache_asset_on_regular_file cd cache_f path asset_id c (w : world) :
  entry w cd asset_id = Some (File c) →
  ∃ out,
    cache_asset cd cache_f path asset_id w =
      (Raised (OSError (Path.join cd asset_id)), World (dirs w) out).
Proof.
  intros (entries & Hcd & Hid)%entry_Some. unfold cache_asset.
  rewrite bind_run. simpl. rewrite bind_run. unfold isdir_entry. simpl.
  rewrite Hcd, Hid. simpl. rewrite !bind_run. simpl.
  unfold mkdir_entry. simpl. rewrite Hcd, Hid. by eexists.
Qed.





(** ** Building again after a failure *)



(** ** Paths and asset ids *)

Lemma split_nonempty c s : Path.split c s ≠ [].
Proof.
  destruct s as [| a s]; simpl; [done |].
  destruct (Ascii.eqb a c); [done |]. by destruct (Path.split c s).
Qed.

Lemma split_no_sep c s : ∀ p,
  p ∈ Path.split c s → c ∉ list_ascii_of_string p.
Proof.
  induction s as [| a s IH]; simpl; intros p Hp.
  - apply list_elem_of_singleton in Hp as ->. simpl. apply not_elem_of_nil.
  - destruct (Ascii.eqb_spec a c) as [-> | Hne].
    + apply elem_of_cons in Hp as [-> | Hp]; [apply not_elem_of_nil | auto].
    + destruct (Path.split c s) as [| p0 ps] eqn:Hsplit.
      * apply list_elem_of_singleton in Hp as ->. simpl.
        intros [-> | []%elem_of_nil]%elem_of_cons. done.
      * apply elem_of_cons in Hp as [-> | Hp].
        -- simpl. intros [-> | Hin]%elem_of_cons; [done |].
           by apply (IH p0); [apply list_elem_of_here |].
        -- apply IH. by apply list_elem_of_further.
Qed.

Lemma substring_chars x s : ∀ n m,
  x ∈ list_ascii_of_string (substring n m s) → x ∈ list_ascii_of_string s.
Proof.
  induction s as [| a s IH]; intros n m; simpl.
  - by destruct n, m.
  - destruct n as [| n].
    + destruct m as [| m]; simpl; [by intros ?%elem_of_nil |].
      intros [-> | Hin]%elem_of_cons; [apply list_elem_of_here |].
      apply list_elem_of_further. by eapply IH.
    + intros Hin. apply list_elem_of_further. by eapply IH.
Qed.

Lemma last_default_or_elem {A} (l : list A) d :
  List.last l d = d ∨ List.last l d ∈ l.
Proof.
  induction l as [| a l IH]; [by left |].
  destruct l as [| b l]; [right; apply list_elem_of_here |].
  destruct IH as [Hd | Hin].
  - left. exact Hd.
  - right. apply list_elem_of_further. exact Hin.
Qed.

Lemma name_no_sep fp : "/"%char ∉ list_ascii_of_string (Path.name fp).
Proof.
  unfold Path.name.
  destruct (last_default_or_elem (Path.parts fp) "") as [-> | Hin].
  - apply not_elem_of_nil.
  - unfold Path.parts in Hin. apply list_elem_of_filter in Hin as [_ Hin].
    by apply (split_no_sep "/"%char fp).
Qed.

(** X11: an asset id holds no path separator, whatever the path it is
    taken from. *)
Theorem asset_id_has_no_separator (fp : string) :
  "/"%char ∉ list_ascii_of_string (asset_id_for_path fp).
Proof.
  unfold asset_id_for_path, Path.stem.
  pose proof (name_no_sep fp) as Hname.
  destruct (Path.rfind "."%char (Path.name fp)) as [i |]; [| done].
  destruct ((0 <? i)%nat && (i <? String.length (Path.name fp) - 1)%nat);
    [| done].
  intros Hin. by apply Hname, (substring_chars _ _ 0 i).
Qed.

Lemma split_app c a b :
  Path.split c (a +:+ String c b) = Path.split c a ++ Path.split c b.
Proof.
  induction a as [| x a IH]; simpl.
  - by rewrite Ascii.eqb_refl.
  - rewrite IH. destruct (Ascii.eqb x c); [done |].
    pose proof (split_nonempty c a) as Hne.
    by destruct (Path.split c a).
Qed.

Lemma split_single c s :
  c ∉ list_ascii_of_string s → Path.split c s = [s].
Proof.
  induction s as [| a s IH]; simpl; intros Hno; [done |].
  destruct (Ascii.eqb_spec a c) as [-> | Hne].
  - exfalso. apply Hno, list_elem_of_here.
  - rewrite IH; [done |]. intros Hin. by apply Hno, list_elem_of_further.
Qed.

Lemma name_of_file_name name :
  "/"%char ∉ list_ascii_of_string name → name ≠ "" → name ≠ "." →
  ∀ dir, Path.name (dir +:+ "/" +:+ name) = name.
Proof.
  intros Hno Hne Hdot dir. unfold Path.name, Path.parts.
  change ("/" +:+ name) with (String "/"%char name).
  rewrite split_app, (split_single _ name Hno), filter_app.
  rewrite (filter_cons_True _ name []) by done.
  rewrite filter_nil. apply List.last_last.
Qed.

(** X12: the id of an asset is read off its file name alone: the same file
    name under any directory, or under none, gives the same id. *)
Theorem asset_id_ignores_directory (dir name : string) :
  "/"%char ∉ list_ascii_of_string name → name ≠ "" → name ≠ "." →
  asset_id_for_path (dir +:+ "/" +:+ name) = asset_id_for_path name.
Proof.
  intros Hno Hne Hdot. unfold asset_id_for_path, Path.stem.
  rewrite (name_of_file_name name Hno Hne Hdot dir).
  assert (Path.name name = name) as ->; [| done].
  unfold Path.name, Path.parts. rewrite (split_single _ name Hno).
  by rewrite (filter_cons_True _ name []).
Qed.

Lemma rfind_None c s : c ∉ list_ascii_of_string s → Path.rfind c s = None.
Proof.
  induction s as [| a s IH]; simpl; intros Hno; [done |].
  rewrite IH by (intros Hin; by apply Hno, list_elem_of_further).
  destruct (Ascii.eqb_spec a c) as [-> | Hne]; [| done].
  exfalso. apply Hno, list_elem_of_here.
Qed.

Lemma rfind_app c a b :
  c ∉ list_ascii_of_string b →
  Path.rfind c (a +:+ String c b) = Some (String.length a).
Proof.
  intros Hno. induction a as [| x a IH]; simpl.
  - by rewrite (rfind_None c b Hno), Ascii.eqb_refl.
  - by rewrite IH.
Qed.

Lemma substring_prefix a b : substring 0 (String.length a) (a +:+ b) = a.
Proof.
  induction a as [| x a IH]; simpl; [by destruct b | by rewrite IH].
Qed.

Lemma length_append a b :
  String.length (a +:+ b) = (String.length a + String.length b)%nat.
Proof. induction a as [| x a IH]; simpl; [done | by rewrite IH]. Qed.

Lemma chars_append a b :
  list_ascii_of_string (a +:+ b) =
  list_ascii_of_string a ++ list_ascii_of_string b.
Proof. induction a as [| x a IH]; simpl; [done | by rewrite IH]. Qed.

(** X13: the id of [dir/base.ext] is [base]: the directory and the last
    extension are dropped. *)
Theorem asset_id_of_file (dir base ext : string) :
  "/"%char ∉ list_ascii_of_string base →
  "/"%char ∉ list_ascii_of_string ext →
  "."%char ∉ list_ascii_of_string ext →
  base ≠ "" → ext ≠ "" →
  asset_id_for_path (dir +:+ "/" +:+ base +:+ "." +:+ ext) = base.
Proof.
  intros Hbase Hext Hdot Hb He.
  set (name := base +:+ "." +:+ ext).
  assert ("/"%char ∉ list_ascii_of_string name) as Hname.
  { unfold name. rewrite chars_append. simpl.
    intros [? | [? | ?]%elem_of_cons]%elem_of_app; done. }
  assert (String.length name =
          (String.length base + S (String.length ext))%nat) as Hlen.
  { unfold name. by rewrite length_append. }
  assert (name ≠ "" ∧ name ≠ ".") as [Hne Hnd].
  { destruct base as [| x base]; [done |].
    destruct ext as [| y ext]; [done |].
    split; [done |]. intros Heq. apply (f_equal String.length) in Heq.
    rewrite Hlen in Heq. simpl in Heq. lia. }
  unfold asset_id_for_path, Path.stem. fold name.
  rewrite (name_of_file_name name Hname Hne Hnd dir).
  unfold name at 1. change ("." +:+ ext) with (String "."%char ext).
  rewrite (rfind_app _ base ext Hdot), Hlen.
  assert (0 < String.length base)%nat as Hb0 by (destruct base; [done | simpl; lia]).
  assert (0 < String.length ext)%nat as He0 by (destruct ext; [done | simpl; lia]).
  rewrite (proj2 (Nat.ltb_lt _ _) Hb0).
  rewrite (proj2 (Nat.ltb_lt (String.length base) _)) by lia.
  simpl. apply substring_prefix.
Qed.

Lemma rfind_app_last c a :
  Path.rfind c (a +:+ String c "") = Some (String.length a).
Proof. apply rfind_app. apply not_elem_of_nil. Qed.

Lemma rfind_last_inv c a : ∀ i,
  Path.rfind c a = Some i → i = (String.length a - 1)%nat →
  ∃ a', a = a' +:+ String c "".
Proof.
  induction a as [| x a IH]; simpl; intros i Hfind Hi; [done |].
  destruct (Path.rfind c a) as [j |] eqn:Hj.
  - injection Hfind as <-.
    destruct a as [| y a]; [done |].
    destruct (IH j eq_refl) as [a' Ha']; [simpl in *; lia |].
    exists (String x a'). by rewrite Ha'.
  - destruct (Ascii.eqb_spec x c) as [-> | Hne]; [| done].
    injection Hfind as <-. destruct a as [| y a]; [by exists "" |].
    simpl in Hi. lia.
Qed.

(** [os.path.join] on a directory path and a relative pattern: a
    separator is added unless the directory path ends with one. *)
Lemma join_relative a b :
  a ≠ "" → (∀ b', b ≠ String "/"%char b') →
  ((∀ a', a ≠ a' +:+ "/") → Path.join a b = a +:+ "/" +:+ b) ∧
  (∀ a', a = a' +:+ "/" → Path.join a b = a +:+ b).
Proof.
  intros Ha Hb.
  assert (Path.join a b =
          match Path.rfind "/"%char a with
          | Some i => if (i =? String.length a - 1)%nat then a +:+ b
                      else a +:+ "/" +:+ b
          | None => a +:+ "/" +:+ b
          end) as ->.
  { unfold Path.join. destruct a as [| x a]; [done |].
    destruct b as [| y b]; [done |].
    destruct (Ascii.eqb_spec y "/"%char) as [-> | Hy]; [by destruct (Hb b) |].
    destruct y as [[] [] [] [] [] [] [] []]; try done. }
  split.
  - intros Hend. destruct (Path.rfind "/"%char a) as [i |] eqn:Hfind; [| done].
    destruct (Nat.eqb_spec i (String.length a - 1)) as [Hi | Hi]; [| done].
    destruct (rfind_last_inv _ _ _ Hfind Hi) as [a' Ha']. by destruct (Hend a').
  - intros a' ->. change ("/" : string) with (String "/"%char "").
    rewrite rfind_app_last, length_append. simpl.
    rewrite (proj2 (Nat.eqb_eq _ _)) by lia. done.
Qed.

(** X14: the pattern the enumerator receives: [dir/*ext] for a flat search
    and [dir/**/*ext] for a recursive one, [dir] being written without a
    final separator. *)
Theorem asset_paths_pattern (path_f : string → list string)
    (asset_dir ext_str : string) (recursive : bool) :
  asset_dir ≠ "" → (∀ a', asset_dir ≠ a' +:+ "/") →
  asset_paths path_f asset_dir (glob_pattern ext_str recursive) =
  path_f (asset_dir +:+ (if recursive then "/**/*" else "/*") +:+ ext_str).
Proof.
  intros Hne Hend. unfold asset_paths. f_equal.
  destruct recursive.
  - change (glob_pattern ext_str true) with (String "*"%char ("*/*" +:+ ext_str)).
    destruct (join_relative asset_dir (String "*"%char ("*/*" +:+ ext_str)) Hne)
      as [-> _]; [done | done |].
    done.
  - change (glob_pattern ext_str false) with (String "*"%char ext_str).
    destruct (join_relative asset_dir (String "*"%char ext_str) Hne)
      as [-> _]; [done | done |].
    done.
Qed.

(** ** The ways a build fails *)

(** The steps of [build_cache] before the driver fail in two ways only:
    the asset directory is rejected, or the mapper raises.  The lookups
    [asset_id_to_paths[a_id]] never raise: every uncached id is a key of
    the dictionary. *)
Lemma build_cache_plan_raised env asset_path_f asset_dir recursive ext
    cache_dir (w w' : world) e :
  build_cache_plan env asset_path_f asset_dir recursive ext cache_dir w =
    (Raised e, w') →
  (dirs w !! abspath env (expanduser env asset_dir) = None ∧
   e = ValueError
         (abspath env (expanduser env asset_dir) +:+ " is not a directory.") ∧
   w' = w) ∨
  (∃ msg, e = RuntimeError msg ∧
     build_asset_mapping
       (scanned_paths env asset_path_f asset_dir recursive ext) =
       Raised (RuntimeError msg)).
Proof.
  intros Hrun.
  destruct (dirs w !! abspath env (expanduser env asset_dir)) as [listing |]
    eqn:Had.
  - right.
    destruct (build_cache_plan_reaches_mapper env asset_path_f asset_dir
                recursive ext cache_dir w)
      as (w1 & _ & (entries & Hentries & _) & Hplan); [by rewrite Had |].
    rewrite Hplan in Hrun. clear Hplan.
    destruct (build_asset_mapping_from_spec
                (scanned_paths env asset_path_f asset_dir recursive ext)
                ∅ [] maps_paths_empty)
      as [(m & Hm & _) | (pre & first & second & post & _ & _ & _ & _ & Hm)];
      unfold build_asset_mapping in *; rewrite Hm in Hrun.
    + exfalso. rewrite bind_run in Hrun. simpl in Hrun.
      rewrite bind_run in Hrun. unfold listdir in Hrun.
      rewrite Hentries in Hrun. rewrite bind_run in Hrun. simpl in Hrun.
      rewrite bind_run in Hrun.
      destruct (path_asset_id_of_total m
                  (set_iter env (uncached_ids m (elements (dom entries)))))
        as [l Hl].
      { intros i Hi. apply set_iter_elem in Hi.
        rewrite uncached_ids_listing in Hi.
        apply elem_of_difference in Hi as [Hi _]. by apply elem_of_dom. }
      unfold lift in Hrun. rewrite Hl in Hrun. done.
    + rewrite bind_run in Hrun. injection Hrun as <- _. eauto.
  - left. split; [done |].
    unfold build_cache_plan in Hrun. rewrite bind_run in Hrun.
    unfold ensure_asset_dir in Hrun. rewrite bind_run in Hrun.
    simpl in Hrun.
    rewrite bool_decide_eq_false_2 in Hrun by (rewrite Had; by intros [? ?]).
    simpl in Hrun. by injection Hrun as <- <-.
Qed.

(** X15: failures of the operating system's calls aside, a build fails in
    three ways only: the asset directory is rejected
    with [ValueError] before anything is done, the mapper raises its
    [RuntimeError], or the driver raises while it runs over the uncached
    assets. The lookups [asset_id_to_paths[a_id]] never raise [KeyError],
    and no error comes after the driver has returned. *)
Theorem build_cache_failures env cacher_f asset_path_f cache_f asset_dir
    recursive ext cache_dir (w w' : world) e :
  build_cache env cacher_f asset_path_f cache_f asset_dir recursive ext
    cache_dir w = (Raised e, w') →
  (dirs w !! abspath env (expanduser env asset_dir) = None ∧
   e = ValueError
         (abspath env (expanduser env asset_dir) +:+ " is not a directory.") ∧
   w' = w) ∨
  (∃ msg, e = RuntimeError msg ∧
     build_asset_mapping
       (scanned_paths env asset_path_f asset_dir recursive ext) =
       Raised (RuntimeError msg)) ∨
  (∃ uncached path_asset_id (w0 : world),
     build_cache_plan env asset_path_f asset_dir recursive ext cache_dir w =
       (Returned (resolve_cache_dir env cache_dir, uncached, path_asset_id),
        w0) ∧
     cacher_f (cache_asset (resolve_cache_dir env cache_dir) cache_f)
       path_asset_id w0 = (Raised e, w')).
Proof.
  rewrite build_cache_unfold, bind_run. intros Hrun.
  destruct (build_cache_plan env asset_path_f asset_dir recursive ext
              cache_dir w) as [[[[cd uncached] l] | e0] w0] eqn:Hplan.
  - right. right.
    pose proof (build_cache_plan_returned _ _ _ _ _ _ _ _ _ _ _ Hplan)
      as (-> & _).
    exists uncached, l, w0. split; [done |].
    rewrite bind_run in Hrun.
    destruct (cacher_f _ l w0) as [[[] | e1] w1]; simpl in Hrun;
      [exfalso | by injection Hrun as -> ->].
    rewrite bind_run in Hrun.
    destruct (0 <? size uncached)%nat; discriminate Hrun.
  - injection Hrun as -> ->.
    destruct (build_cache_plan_raised _ _ _ _ _ _ _ _ _ Hplan); auto.
Qed.

(** ** The size of the thumbnail *)

(** X16: the thumbnail keeps the proportions of the image to within one
    pixel of height, never above them, and exactly when the width divides
    [640 * h]. *)
Theorem thumbnail_height_bounds (w h : Z) :
  (0 < w < 2 ^ 53)%Z → (0 ≤ h ≤ 2 ^ 39)%Z →
  ∃ h' : Z,
    thumbnail_size w h 640 = Returned (640%Z, h') ∧
    (0 ≤ h')%Z ∧
    (h' * w ≤ 640 * h < (h' + 1) * w)%Z ∧
    (((640 * h) mod w = 0)%Z → (h' * w = 640 * h)%Z).
Proof.
  intros Hw Hh. exists (h * 640 / w)%Z.
  split; [by apply thumbnail_size_truncates |].
  pose proof (Z.div_mod (h * 640) w ltac:(lia)) as Hdm.
  pose proof (Z.mod_pos_bound (h * 640) w ltac:(lia)) as Hrem.
  replace (640 * h)%Z with (h * 640)%Z by lia.
  split; [apply Z.div_pos; lia |]. split; [lia |]. intros Hz. lia.
Qed.


(** ** What a build leaves behind *)

(** X18: a build that returns has accepted the asset directory, has found
    pairwise distinct stems, and returns the resolved cache directory,
    [cache_dir] or by default [CACHE_DIRNAME] under the working directory;
    that directory exists when the build ends. *)
Theorem build_cache_returned env k asset_dir recursive ext cache_dir
    (w w' : world) cd :
  build_serial_cache env k asset_dir recursive ext cache_dir w =
    (Returned cd, w') →
  cd = abspath env (expanduser env
         match cache_dir with
         | None => Path.join (getcwd env) (CACHE_DIRNAME env)
         | Some cache_dir => cache_dir
         end) ∧
  is_Some (dirs w' !! cd) ∧
  is_Some (dirs w !! abspath env (expanduser env asset_dir)) ∧
  NoDup (asset_id_for_path <$>
           scanned_paths env (paths_of env k) asset_dir recursive ext).
Proof.
  unfold build_serial_cache. rewrite build_cache_unfold. intros Hrun.
  apply bind_returned in Hrun as ([[cd' uncached] l] & w0 & Hplan & Hrun).
  apply bind_returned in Hrun as ([] & w1 & Hser & Hrun).
  apply bind_returned in Hrun as ([] & w2 & Hpr & Hrun).
  injection Hrun as <- <-.
  assert (dirs w2 = dirs w1) as Hdirs.
  { destruct (0 <? size uncached)%nat;
      [by eapply print_returned | by injection Hpr as <-]. }
  apply build_cache_plan_returned in Hplan
    as (-> & Had & m & entries & Hm & Hentries & _ & _).
  apply steps_serial_cacher_from in Hser as (Hkeys & _ & _).
  split; [done |]. split; [rewrite Hdirs; apply Hkeys; eauto |].
  split; [done |].
  destruct (build_asset_mapping_from_spec
              (scanned_paths env (paths_of env k) asset_dir recursive ext)
              ∅ [] maps_paths_empty)
    as [(m' & _ & Hnd & _) | (pre & first & second & post & _ & _ & _ & _ & Hraise)].
  - done.
  - unfold build_asset_mapping in Hm. congruence.
Qed.



(** ** On the sample installation *)

Lemma build_cache_invalid_asset_dir_witness :
  build_cache env_fwd serial_cacher (image_paths env_fwd) (cache_image env_fwd)
    "/nowhere" false None None sample_world =
  (Raised (ValueError "/nowhere is not a directory."), sample_world).
Proof.
  apply (build_cache_invalid_asset_dir env_fwd serial_cacher
           (image_paths env_fwd) (cache_image env_fwd) "/nowhere" false None
           None sample_world).
  vm_compute. reflexivity.
Defined.




Lemma cache_asset_on_regular_file_witness :
  ∃ out,
    cache_asset "/cache" (cache_image env_fwd) "/assets/photo2.png" "photo2"
      sample_world =
    (Raised (OSError "/cache/photo2"), World (dirs sample_world) out).
Proof.
  apply (cache_asset_on_regular_file "/cache" (cache_image env_fwd)
           "/assets/photo2.png" "photo2" (Bytes "stale") sample_world).
  vm_compute. reflexivity.
Defined.





Lemma asset_id_ignores_directory_witness :
  asset_id_for_path ("/assets/sub" +:+ "/" +:+ "photo4.png") =
  asset_id_for_path "photo4.png".
Proof.
  apply (asset_id_ignores_directory "/assets/sub" "photo4.png").
  - apply (bool_decide_unpack _). vm_compute. exact I.
  - discriminate.
  - discriminate.
Defined.

Lemma asset_id_of_file_witness :
  asset_id_for_path ("/assets/sub" +:+ "/" +:+ "mesh.tar" +:+ "." +:+ "gz") =
  "mesh.tar".
Proof.
  apply (asset_id_of_file "/assets/sub" "mesh.tar" "gz").
  - apply (bool_decide_unpack _). vm_compute. exact I.
  - apply (bool_decide_unpack _). vm_compute. exact I.
  - apply (bool_decide_unpack _). vm_compute. exact I.
  - discriminate.
  - discriminate.
Defined.

Lemma asset_paths_pattern_witness :
  asset_paths (mio_image_paths env_fwd) "/assets" (glob_pattern ".png" true) =
  mio_image_paths env_fwd ("/assets" +:+ "/**/*" +:+ ".png").
Proof.
  apply (asset_paths_pattern (mio_image_paths env_fwd) "/assets" ".png" true).
  - discriminate.
  - intros a' Heq. apply (f_equal (λ s, List.last (list_ascii_of_string s) "a"%char)) in Heq.
    rewrite chars_append in Heq. simpl list_ascii_of_string in Heq.
    rewrite List.last_last in Heq. vm_compute in Heq. discriminate.
Defined.

Lemma build_cache_failures_witness :
  (dirs bare_world !! abspath env_dup (expanduser env_dup "/assets") = None ∧
   RuntimeError
     "asset_id x is not unique - links to /assets/a/x.jpg and /assets/b/x.png" =
   ValueError
     (abspath env_dup (expanduser env_dup "/assets") +:+ " is not a directory.") ∧
   (build_cache env_dup serial_cacher (image_paths env_dup)
      (cache_image env_dup) "/assets" false None None bare_world).2 =
   bare_world) ∨
  (∃ msg,
     RuntimeError
       "asset_id x is not unique - links to /assets/a/x.jpg and /assets/b/x.png" =
     RuntimeError msg ∧
     build_asset_mapping
       (scanned_paths env_dup (image_paths env_dup) "/assets" false None) =
       Raised (RuntimeError msg)) ∨
  (∃ uncached path_asset_id (w0 : world),
     build_cache_plan env_dup (image_paths env_dup) "/assets" false None None
       bare_world =
       (Returned (resolve_cache_dir env_dup None, uncached, path_asset_id),
        w0) ∧
     serial_cacher
       (cache_asset (resolve_cache_dir env_dup None) (cache_image env_dup))
       path_asset_id w0 =
     (Raised
        (RuntimeError
           "asset_id x is not unique - links to /assets/a/x.jpg and /assets/b/x.png"),
      (build_cache env_dup serial_cacher (image_paths env_dup)
         (cache_image env_dup) "/assets" false None None bare_world).2)).
Proof.
  apply (build_cache_failures env_dup serial_cacher (image_paths env_dup)
           (cache_image env_dup) "/assets" false None None bare_world).
  vm_compute. reflexivity.
Defined.

Lemma thumbnail_height_bounds_witness :
  ∃ h' : Z,
    thumbnail_size 3 2 640 = Returned (640%Z, h') ∧
    (0 ≤ h')%Z ∧
    (h' * 3 ≤ 640 * 2 < (h' + 1) * 3)%Z ∧
    (((640 * 2) mod 3 = 0)%Z → (h' * 3 = 640 * 2)%Z).
Proof.
  apply (thumbnail_height_bounds 3 2).
  - vm_compute. split; reflexivity.
  - vm_compute. split; discriminate.
Defined.


Lemma build_cache_returned_witness :
  "/cache" = abspath env_fwd (expanduser env_fwd (Path.join (getcwd env_fwd)
                                                    (CACHE_DIRNAME env_fwd))) ∧
  is_Some (dirs (build_serial_cache env_fwd mesh "/assets" false None None
                   sample_world).2 !! "/cache") ∧
  is_Some (dirs sample_world !! abspath env_fwd (expanduser env_fwd "/assets")) ∧
  NoDup (asset_id_for_path <$>
           scanned_paths env_fwd (paths_of env_fwd mesh) "/assets" false None).
Proof.
  apply (build_cache_returned env_fwd mesh "/assets" false None None
           sample_world).
  vm_compute. reflexivity.
Defined.


